(** * HLS transcoding session manager (backend/src/hls-transcoder.ts)

    A shallow embedding of [createHLSTranscoder]: the closure state
    [HLSState] (configuration, session map, used-port set) and the
    functions that close over it, written as functions on an explicit
    state.

    Conventions of the embedding.
    - JavaScript numbers that hold ports, counters, byte counts and
      millisecond clocks are integers in the code; they are modelled as [Z].
    - [Map<string, TranscodingSession>] is a [gmap string TranscodingSession],
      [Set<number>] a [gset Z].
    - A session object is shared by the map and by the event handlers that
      close over it; the model keeps the object in the map and delivers an
      event to the session registered under its id.
    - Every exported function is an async function; the model runs each call
      and each event handler to completion.  What the outside world decides
      (whether a directory can be created, whether ffmpeg spawns, whether the
      process exits within the grace period, the clock) is an explicit
      argument.
    - File-system paths are lists of segments: [path.join p s] appends the
      segment [s], [path.dirname] drops the last one. *)

From Stdlib Require Import ZArith Lia Ascii.
From Stdlib.Init Require Import Byte.
From stdpp Require Import gmap strings list fin_maps fin_sets pretty.

Open Scope Z_scope.

(** ** Types (hls-transcoder.ts lines 8-64) *)

Definition Path := list string.

Definition path_join (p : Path) (segment : string) : Path := p ++ [segment].
Definition path_dirname (p : Path) : Path := removelast p.

Fixpoint path_to_string (p : Path) : string :=
  match p with
  | [] => ""
  | [s] => s
  | s :: rest => s +:+ "/" +:+ path_to_string rest
  end.

Record HLSConfig := mkHLSConfig {
  outputDir : Path;
  segmentDuration : Z;
  playlistLength : Z;
  resolution : string;
  videoBitrate : string;
  audioBitrate : string;
  baseRtpPort : Z
}.

Inductive MediaKind := Video | Audio.

#[global] Instance MediaKind_eq_dec : EqDecision MediaKind.
Proof. solve_decision. Defined.

(** A mediasoup producer as far as the transcoder looks at it: its id, its
    [kind], and whether a router can be reached through it (line 348). *)
Record Producer := mkProducer {
  producerId : string;
  kind : MediaKind;
  hasRouter : bool
}.

(** The [{ video, audio }] objects of a session. *)
Record PerKind (A : Type) := mkPerKind { video : A; audio : A }.
Arguments mkPerKind {A} _ _.
Arguments video {A} _.
Arguments audio {A} _.

Definition getKind {A} (k : MediaKind) (p : PerKind A) : A :=
  match k with Video => video p | Audio => audio p end.

Definition setKind {A} (k : MediaKind) (a : A) (p : PerKind A) : PerKind A :=
  match k with
  | Video => mkPerKind a (audio p)
  | Audio => mkPerKind (video p) a
  end.

Inductive Signal := SIGTERM | SIGKILL | SIGINT.

#[global] Instance Signal_eq_dec : EqDecision Signal.
Proof. solve_decision. Defined.

(** A node [Buffer]: the bytes of one datagram. *)
Definition Buffer := list byte.

(** The ffmpeg child process: its handle, whether the operating-system
    process is still alive, the [killed] flag node sets when [kill] delivered
    a signal, and its stdin pipe (spawned with
    [stdio: ['pipe','pipe','pipe']], line 547) with the chunks written. *)
Record ChildProcess := mkChildProcess {
  pid : nat;
  spawnArgs : list string;
  running : bool;
  killed : bool;
  stdinDestroyed : bool;
  stdinEnded : bool;
  stdinWritten : list Buffer
}.

(** The two 'message' handlers the file installs on a dgram socket:
    the one of [setupRtpReceiversWithForwarding] (lines 190-212, 235-257)
    and the one of [attemptSocketRecovery] (lines 291-295). *)
Inductive MessageHandler := StatsAndForward | ForwardOnly.

Record Socket := mkSocket {
  boundPort : Z;
  messageHandler : MessageHandler;
  socketClosed : bool
}.

Record PlainTransport := mkPlainTransport {
  transportRemoteIp : string;
  transportRemotePort : Z
}.

Record Consumer := mkConsumer { consumedProducer : string }.

Record Stats := mkStats {
  packetsReceived : Z;
  bytesReceived : Z;
  lastPacketTime : Z
}.

Record TranscodingSession := mkSession {
  id : string;
  process : option ChildProcess;
  isActive : bool;
  startTime : Z;
  outputPath : Path;
  rtpPorts : PerKind Z;
  rtpSockets : PerKind (option Socket);
  producers : PerKind (option Producer);
  plainTransports : PerKind (option PlainTransport);
  consumers : PerKind (option Consumer);
  stats : Stats
}.

Record HLSState := mkHLSState {
  config : HLSConfig;
  sessions : gmap string TranscodingSession;
  usedPorts : gset Z
}.

(** Field updates of the mutable objects. *)
Definition set_process (p : option ChildProcess) (s : TranscodingSession) :=
  mkSession (id s) p (isActive s) (startTime s) (outputPath s) (rtpPorts s)
    (rtpSockets s) (producers s) (plainTransports s) (consumers s) (stats s).
Definition set_isActive (b : bool) (s : TranscodingSession) :=
  mkSession (id s) (process s) b (startTime s) (outputPath s) (rtpPorts s)
    (rtpSockets s) (producers s) (plainTransports s) (consumers s) (stats s).
Definition set_rtpSockets (x : PerKind (option Socket)) (s : TranscodingSession) :=
  mkSession (id s) (process s) (isActive s) (startTime s) (outputPath s) (rtpPorts s)
    x (producers s) (plainTransports s) (consumers s) (stats s).
Definition set_plainTransports (x : PerKind (option PlainTransport)) (s : TranscodingSession) :=
  mkSession (id s) (process s) (isActive s) (startTime s) (outputPath s) (rtpPorts s)
    (rtpSockets s) (producers s) x (consumers s) (stats s).
Definition set_consumers (x : PerKind (option Consumer)) (s : TranscodingSession) :=
  mkSession (id s) (process s) (isActive s) (startTime s) (outputPath s) (rtpPorts s)
    (rtpSockets s) (producers s) (plainTransports s) x (stats s).
Definition set_stats (x : Stats) (s : TranscodingSession) :=
  mkSession (id s) (process s) (isActive s) (startTime s) (outputPath s) (rtpPorts s)
    (rtpSockets s) (producers s) (plainTransports s) (consumers s) x.

Definition set_sessions (m : gmap string TranscodingSession) (st : HLSState) :=
  mkHLSState (config st) m (usedPorts st).
Definition set_usedPorts (u : gset Z) (st : HLSState) :=
  mkHLSState (config st) (sessions st) u.

(** ** Default configuration and factory (lines 66-83) *)

Definition DEFAULT_HLS_CONFIG : HLSConfig :=
  {| outputDir := ["hls-output"];
     segmentDuration := 4;
     playlistLength := 10;
     resolution := "1280x720";
     videoBitrate := "2500k";
     audioBitrate := "128k";
     baseRtpPort := 20000 |}.

Definition createHLSTranscoder (cfg : HLSConfig) : HLSState :=
  {| config := cfg; sessions := ∅; usedPorts := ∅ |}.

(** ** Port allocator (lines 622-634)

    [scanPort] is the [while (state.usedPorts.has(port)) port += 2] loop.
    The fuel counts the remaining increments; [getAvailablePort] gives it
    the size of the used-port set, which the loop cannot exceed
    ([scanPort_terminates] below), so the [None] branch is never taken. *)
Fixpoint scanPort (fuel : nat) (used : gset Z) (port : Z) : option Z :=
  if decide (port ∈ used) then
    match fuel with
    | O => None
    | S fuel' => scanPort fuel' used (port + 2)
    end
  else Some port.

Definition getAvailablePort (st : HLSState) : Z * HLSState :=
  let port :=
    match scanPort (size (usedPorts st)) (usedPorts st) (baseRtpPort (config st)) with
    | Some p => p
    | None => baseRtpPort (config st)
    end in
  (port, set_usedPorts ({[port + 1]} ∪ ({[port]} ∪ usedPorts st)) st).

(** ** Errors, effects and what the outside world decides *)

Inductive Error :=
| SessionExists (sessionId : string)      (* line 105 *)
| NoValidProducers                        (* line 116 *)
| DirectoryError                          (* fs.mkdir rejected, line 794 *)
| SpawnError                              (* ffmpeg 'error' event, line 569 *)
| RouterUnavailable                       (* line 350 *)
| TransportError                          (* a mediasoup call rejected *)
| SocketNotRunning                        (* socket.address() threw *)
| WriteError (p : Path).                  (* fs.writeFile rejected, line 853 *)

(** Calls on external collaborators and log lines that tell paths apart,
    in the order the code issues them. *)
Inductive Effect :=
| WarnSessionNotFound (sessionId : string)
| ConsumerClose (k : MediaKind)
| TransportClose (k : MediaKind)
| SocketClose (k : MediaKind)
| StdinEnd (p : nat)
| StdinWrite (p : nat) (data : Buffer)
| Kill (p : nat) (s : Signal)
| WarnBackpressure
| WarnFlowTimeout
| LogFlowDetected.

(** What one [startTranscoding] call meets outside the process. *)
Record StartEnv := mkStartEnv {
  now : Z;                          (* Date.now() when the session is built *)
  mkdirOk : bool;                   (* ensureDirectoryExists(outputPath) *)
  spawned : option nat;             (* 'spawn' with this pid, or 'error' *)
  transportOk : MediaKind -> bool;  (* createPlainTransport/connect/consume *)
  exitsInGrace : bool               (* the rollback's wait for 'exit', line 171 *)
}.

(** ** The child process *)

(** [subprocess.kill(signal)]: delivers the signal when the process is
    alive, and only then sets [killed]. *)
Definition kill (s : Signal) (p : ChildProcess) : ChildProcess * list Effect :=
  if running p
  then (mkChildProcess (pid p) (spawnArgs p) (running p) true
          (stdinDestroyed p) (stdinEnded p) (stdinWritten p), [Kill (pid p) s])
  else (p, []).

Definition processExited (p : ChildProcess) : ChildProcess :=
  mkChildProcess (pid p) (spawnArgs p) false (killed p) true (stdinEnded p)
    (stdinWritten p).

(** [stdin.write(chunk)] *)
Definition stdinWrite (data : Buffer) (p : ChildProcess) : ChildProcess :=
  mkChildProcess (pid p) (spawnArgs p) (running p) (killed p)
    (stdinDestroyed p) (stdinEnded p) (stdinWritten p ++ [data]).

(** The guarded write shared by every forwarding path
    ([session.process && session.process.stdin && !session.process.stdin.destroyed],
    lines 198, 243, 292, 986). *)
Definition forwardToStdin (data : Buffer) (session : TranscodingSession)
  : TranscodingSession * list Effect :=
  match process session with
  | Some p =>
      if stdinDestroyed p then (session, [])
      else (set_process (Some (stdinWrite data p)) session, [StdinWrite (pid p) data])
  | None => (session, [])
  end.

(** ** RTP ingest (lines 176-300) *)

(** The 'message' handler of lines 190-212 and 235-257. *)
Definition onRtpMessage (tnow : Z) (rtpPacket : Buffer) (session : TranscodingSession)
  : TranscodingSession * list Effect :=
  let st := stats session in
  let session1 :=
    set_stats (mkStats (packetsReceived st + 1)
                       (bytesReceived st + Z.of_nat (length rtpPacket))
                       tnow) session in
  forwardToStdin rtpPacket session1.

(** The 'message' handler of lines 291-295. *)
Definition onRecoveredMessage (rtpPacket : Buffer) (session : TranscodingSession)
  : TranscodingSession * list Effect :=
  forwardToStdin rtpPacket session.

(** A datagram arriving on the socket the session holds for kind [k]. *)
Definition deliverDatagram (tnow : Z) (k : MediaKind) (rtpPacket : Buffer)
    (session : TranscodingSession) : TranscodingSession * list Effect :=
  match getKind k (rtpSockets session) with
  | Some sock =>
      if socketClosed sock then (session, [])
      else match messageHandler sock with
           | StatsAndForward => onRtpMessage tnow rtpPacket session
           | ForwardOnly => onRecoveredMessage rtpPacket session
           end
  | None => (session, [])
  end.

Definition truthyPort (p : Z) : bool := negb (p =? 0).

Definition setupRtpReceiver (k : MediaKind) (session : TranscodingSession)
  : TranscodingSession :=
  if bool_decide (is_Some (getKind k (producers session)))
     && truthyPort (getKind k (rtpPorts session))
     && bool_decide (is_Some (process session))
  then set_rtpSockets
         (setKind k (Some (mkSocket (getKind k (rtpPorts session)) StatsAndForward false))
                  (rtpSockets session)) session
  else session.

Definition setupRtpReceiversWithForwarding (session : TranscodingSession)
  : TranscodingSession :=
  setupRtpReceiver Audio (setupRtpReceiver Video session).

(** [attemptSocketRecovery]; [bound] tells whether the bind callback of
    line 281 runs. *)
Definition attemptSocketRecovery (bound : bool) (k : MediaKind)
    (session : TranscodingSession) : TranscodingSession * list Effect :=
  if negb (isActive session) then (session, [])
  else if bound then
    let port := getKind k (rtpPorts session) in
    let eff := match getKind k (rtpSockets session) with
               | Some _ => [SocketClose k]
               | None => []
               end in
    (set_rtpSockets (setKind k (Some (mkSocket port ForwardOnly false))
                             (rtpSockets session)) session, eff)
  else (session, []).

(** ** Connecting producers (lines 302-402) *)

Definition createPlainTransportForProducer (ok : bool) (producer : Producer)
    (remoteIp : string) (remotePort : Z) : Error + (PlainTransport * Consumer) :=
  if negb (hasRouter producer) then inl RouterUnavailable
  else if negb ok then inl TransportError
  else inr (mkPlainTransport remoteIp remotePort, mkConsumer (producerId producer)).

Definition connectProducer (ok : MediaKind -> bool) (k : MediaKind)
    (session : TranscodingSession) : Error + TranscodingSession :=
  match getKind k (producers session) with
  | Some producer =>
      if truthyPort (getKind k (rtpPorts session)) then
        match createPlainTransportForProducer (ok k) producer "127.0.0.1"
                (getKind k (rtpPorts session)) with
        | inr (transport, consumer) =>
            inr (set_consumers (setKind k (Some consumer) (consumers session))
                   (set_plainTransports
                      (setKind k (Some transport) (plainTransports session)) session))
        | inl e => inl e
        end
      else inr session
  | None => inr session
  end.

(** ** Stream synchronizer (lines 404-457) *)

Inductive Promise (A : Type) :=
| Pending
| Resolved (a : A)
| Rejected (e : Error).
Arguments Pending {A}.
Arguments Resolved {A} _.
Arguments Rejected {A} _.

Inductive FlowOutcome :=
| FlowDetected (packets elapsed : Z)     (* line 448 *)
| FlowTimeout (packets elapsed : Z).     (* line 452 *)

(** One firing of the [setInterval] callback: the clock and the value of
    [session.stats.packetsReceived] it reads. *)
Definition Tick := (Z * Z)%type.

(** The interval callback run over the firings so far.  [tstart] is the
    [Date.now()] of line 439. *)
Fixpoint pollRtpFlow (tstart initialPacketCount timeoutMs : Z) (ticks : list Tick)
  : Promise FlowOutcome :=
  match ticks with
  | [] => Pending
  | (tnow, count) :: rest =>
      let elapsed := tnow - tstart in
      let received := count - initialPacketCount in
      if 10 <? received then Resolved (FlowDetected received elapsed)
      else if timeoutMs <? elapsed then Resolved (FlowTimeout received elapsed)
      else pollRtpFlow tstart initialPacketCount timeoutMs rest
  end.

Definition waitForRtpFlow (tstart : Z) (session : TranscodingSession)
    (timeoutMs : Z) (ticks : list Tick) : Promise FlowOutcome :=
  pollRtpFlow tstart (packetsReceived (stats session)) timeoutMs ticks.

(** [synchronizeStreams]: [None] when no wait is made at all. *)
Definition synchronizeStreams (tstart : Z) (session : TranscodingSession)
    (ticks : list Tick) : Promise (option FlowOutcome) :=
  let lift (p : Promise FlowOutcome) : Promise (option FlowOutcome) :=
    match p with
    | Pending => Pending
    | Resolved o => Resolved (Some o)
    | Rejected e => Rejected e
    end in
  match audio (producers session), video (producers session) with
  | Some _, Some _ => lift (waitForRtpFlow tstart session 3000 ticks)
  | _, Some _ => lift (waitForRtpFlow tstart session 2000 ticks)
  | Some _, None => lift (waitForRtpFlow tstart session 2000 ticks)
  | None, None => Resolved None
  end.

(** [connectProducersToRtp]: the video producer, then the audio producer;
    the first failure is rethrown with the session as mutated so far.  The
    closing [synchronizeStreams] always resolves and changes nothing
    ([synchronizeStreams_never_rejects], [waitForRtpFlow_resolves]). *)
Definition connectProducersToRtp (ok : MediaKind -> bool)
    (session : TranscodingSession) : option Error * TranscodingSession :=
  match connectProducer ok Video session with
  | inl e => (Some e, session)
  | inr session1 =>
      match connectProducer ok Audio session1 with
      | inl e => (Some e, session1)
      | inr session2 => (None, session2)
      end
  end.

(** ** Process supervisor (lines 459-620) *)

Definition ffmpegArgs (cfg : HLSConfig) (session : TranscodingSession)
    (playlistPath : Path) : list string :=
  let hasVideo := bool_decide (is_Some (video (producers session))) in
  let hasAudio := bool_decide (is_Some (audio (producers session))) in
  [ "-protocol_whitelist"; "pipe,udp,rtp,file";
    "-thread_queue_size"; "1024";
    "-analyzeduration"; "1000000";
    "-probesize"; "1000000" ]
  ++ (if hasVideo && hasAudio then ["-f"; "rtp"; "-i"; "pipe:0"]
      else if hasVideo then ["-f"; "rtp"; "-i"; "pipe:0"]
      else if hasAudio then ["-f"; "rtp"; "-i"; "pipe:0"]
      else [])
  ++ (if hasVideo then
        [ "-c:v"; "libx264"; "-preset"; "veryfast"; "-tune"; "zerolatency";
          "-profile:v"; "baseline"; "-level"; "3.1";
          "-s"; resolution cfg;
          "-b:v"; videoBitrate cfg;
          "-maxrate"; videoBitrate cfg;
          "-bufsize"; "4M"; "-r"; "30"; "-g"; "60"; "-keyint_min"; "60";
          "-sc_threshold"; "0";
          "-x264opts"; "keyint=60:min-keyint=60:no-scenecut:rc-lookahead=30" ]
      else [])
  ++ (if hasAudio then
        [ "-c:a"; "aac"; "-b:a"; audioBitrate cfg; "-ar"; "48000"; "-ac"; "2";
          "-profile:a"; "aac_low" ]
      else [])
  ++ [ "-f"; "hls";
       "-hls_time"; pretty (segmentDuration cfg);
       "-hls_list_size"; pretty (playlistLength cfg);
       "-hls_flags";
       "delete_segments+append_list+round_durations+split_by_time+independent_segments";
       "-hls_segment_filename";
       path_to_string (path_join (path_dirname playlistPath) "segment_%03d.ts");
       "-hls_segment_type"; "mpegts";
       "-hls_start_number_source"; "datetime";
       "-start_number"; "0";
       "-hls_allow_cache"; "0" ]
  ++ [ path_to_string playlistPath ].

(** [startFFmpegProcess]: resolves with the new process on 'spawn',
    rejects on 'error'. *)
Definition startFFmpegProcess (cfg : HLSConfig) (spawn : option nat)
    (session : TranscodingSession) (playlistPath : Path) : Error + ChildProcess :=
  match spawn with
  | Some p => inr (mkChildProcess p (ffmpegArgs cfg session playlistPath)
                     true false false false [])
  | None => inl SpawnError
  end.

(** The 'exit' handler of lines 572-592: the session as the handler leaves
    it, and the delay of the restart timer when one is set. *)
Definition onProcessExit (code : option Z) (signal : option Signal)
    (session : TranscodingSession) : TranscodingSession * option Z :=
  let session1 := set_isActive false session in
  if bool_decide (code ≠ Some 0)
     && bool_decide (signal ≠ Some SIGTERM)
     && bool_decide (signal ≠ Some SIGKILL)
     && isActive session1
  then (session1, Some 5000)
  else (session1, None).

(** The timer callback of lines 579-590. *)
Definition restartFFmpeg (cfg : HLSConfig) (spawn : option nat)
    (playlistPath : Path) (session : TranscodingSession) : TranscodingSession :=
  match startFFmpegProcess cfg spawn session playlistPath with
  | inr newProcess =>
      setupRtpReceiversWithForwarding
        (set_isActive true (set_process (Some newProcess) session))
  | inl _ => session
  end.

(** The operating system reports the exit of the session's process: the
    process is gone and the 'exit' handler runs. *)
Definition processExit (code : option Z) (signal : option Signal)
    (session : TranscodingSession) : TranscodingSession * option Z :=
  onProcessExit code signal
    (set_process (processExited <$> process session) session).

(** ** Session registry (lines 98-174, 636-716) *)

Definition closeIfPresent {A} (e : Effect) (o : option A) : list Effect :=
  match o with Some _ => [e] | None => [] end.

Definition stdinEnd (p : ChildProcess) : ChildProcess :=
  mkChildProcess (pid p) (spawnArgs p) (running p) (killed p)
    (stdinDestroyed p) true (stdinWritten p).

(** Lines 681-705: end stdin, SIGTERM, then either the 'exit' event or the
    5000 ms timer, whichever comes first.  [exitsInGrace] says that the
    process, if it is alive, exits before the timer. *)
Definition stopProcess (exitsInGrace : bool) (p : ChildProcess)
  : ChildProcess * list Effect :=
  let '(p1, e1) := if stdinDestroyed p then (p, [])
                   else (stdinEnd p, [StdinEnd (pid p)]) in
  let '(p2, e2) := kill SIGTERM p1 in
  if running p2 && exitsInGrace then (processExited p2, e1 ++ e2)
  else if negb (killed p2) then
    let '(p3, e3) := kill SIGKILL p2 in (p3, e1 ++ e2 ++ e3)
  else (p2, e1 ++ e2).

Definition releasePorts (ports : PerKind Z) (used : gset Z) : gset Z :=
  (((used ∖ {[video ports]}) ∖ {[video ports + 1]}) ∖ {[audio ports]})
    ∖ {[audio ports + 1]}.

Definition stopTranscoding (exitsInGrace : bool) (st : HLSState)
    (sessionId : string) : list Effect * HLSState :=
  match sessions st !! sessionId with
  | None => ([WarnSessionNotFound sessionId], st)
  | Some session =>
      let closes :=
        closeIfPresent (ConsumerClose Video) (video (consumers session))
        ++ closeIfPresent (ConsumerClose Audio) (audio (consumers session))
        ++ closeIfPresent (TransportClose Video) (video (plainTransports session))
        ++ closeIfPresent (TransportClose Audio) (audio (plainTransports session))
        ++ closeIfPresent (SocketClose Video) (video (rtpSockets session))
        ++ closeIfPresent (SocketClose Audio) (audio (rtpSockets session)) in
      let used := releasePorts (rtpPorts session) (usedPorts st) in
      let kills :=
        match process session with
        | Some p => snd (stopProcess exitsInGrace p)
        | None => []
        end in
      (closes ++ kills,
       mkHLSState (config st) (delete sessionId (sessions st)) used)
  end.

Definition findProducer (k : MediaKind) (prods : list Producer) : option Producer :=
  find (fun p => bool_decide (kind p = k)) prods.

(** [producer ? await getAvailablePort() : 0] (lines 121-122). *)
Definition allocateFor (producer : option Producer) (st : HLSState)
  : Z * HLSState :=
  match producer with
  | Some _ => getAvailablePort st
  | None => (0, st)
  end.

Definition playlistPathOf (cfg : HLSConfig) (sessionId : string) : Path :=
  path_join (path_join (outputDir cfg) sessionId) "playlist.m3u8".

Definition putSession (session : TranscodingSession) (st : HLSState) : HLSState :=
  set_sessions (<[id session := session]> (sessions st)) st.

(** The session object built at lines 129-148. *)
Definition newSession (env : StartEnv) (cfg : HLSConfig) (sessionId : string)
    (videoProducer audioProducer : option Producer) (videoPort audioPort : Z)
  : TranscodingSession :=
  {| id := sessionId;
     process := None;
     isActive := true;
     startTime := now env;
     outputPath := path_join (outputDir cfg) sessionId;
     rtpPorts := mkPerKind videoPort audioPort;
     rtpSockets := mkPerKind None None;
     producers := mkPerKind videoProducer audioProducer;
     plainTransports := mkPerKind None None;
     consumers := mkPerKind None None;
     stats := mkStats 0 0 0 |}.

(** Lines 152-166, run on the session just registered: start ffmpeg, bind
    the receivers, connect the producers.  The session comes back as the
    code has mutated it when it returns or throws. *)
Definition launchSession (env : StartEnv) (cfg : HLSConfig)
    (playlistPath : Path) (session : TranscodingSession)
  : (Error + Path) * TranscodingSession :=
  match startFFmpegProcess cfg (spawned env) session playlistPath with
  | inl e => (inl e, session)
  | inr ffmpegProcess =>
      let session1 :=
        setupRtpReceiversWithForwarding
          (set_process (Some ffmpegProcess) session) in
      match connectProducersToRtp (transportOk env) session1 with
      | (Some e, session2) => (inl e, session2)
      | (None, session2) => (inr playlistPath, session2)
      end
  end.

(** The [try] block of [startTranscoding] (lines 104-166): what it returns
    or throws, and the state at that point. *)
Definition startTranscoding_try (env : StartEnv) (st : HLSState)
    (sessionId : string) (prods : list Producer) : (Error + Path) * HLSState :=
  if bool_decide (is_Some (sessions st !! sessionId))
  then (inl (SessionExists sessionId), st)
  else if negb (mkdirOk env) then (inl DirectoryError, st)
  else
    let videoProducer := findProducer Video prods in
    let audioProducer := findProducer Audio prods in
    match videoProducer, audioProducer with
    | None, None => (inl NoValidProducers, st)
    | _, _ =>
        let '(videoPort, st1) := allocateFor videoProducer st in
        let '(audioPort, st2) := allocateFor audioProducer st1 in
        let playlistPath := playlistPathOf (config st) sessionId in
        let session :=
          newSession env (config st) sessionId videoProducer audioProducer
            videoPort audioPort in
        let '(result, session1) :=
          launchSession env (config st) playlistPath session in
        (result, putSession session1 st2)
    end.

Record StartResult := mkStartResult {
  outcome : Error + Path;
  cleanupEffects : list Effect;
  stateAfter : HLSState
}.

(** [startTranscoding]: the [try] block, and on any throw the [catch] of
    lines 168-173, which stops [sessionId] and rethrows. *)
Definition startTranscoding (env : StartEnv) (st : HLSState)
    (sessionId : string) (prods : list Producer) : StartResult :=
  match startTranscoding_try env st sessionId prods with
  | (inl e, st1) =>
      let '(eff, st2) := stopTranscoding (exitsInGrace env) st1 sessionId in
      mkStartResult (inl e) eff st2
  | (inr playlistPath, st1) => mkStartResult (inr playlistPath) [] st1
  end.

(** ** Adaptive bitrate (lines 799-855) *)

(** The values a template literal prints in [createMasterPlaylist]. *)
Inductive JsValue := JsNum (z : Z) | JsNaN | JsUndefined.

Definition jsToString (v : JsValue) : string :=
  match v with
  | JsNum z => pretty z
  | JsNaN => "NaN"
  | JsUndefined => "undefined"
  end.

Definition jsTimes (v : JsValue) (k : Z) : JsValue :=
  match v with JsNum z => JsNum (z * k) | _ => JsNaN end.

Definition digitValue (c : ascii) : option Z :=
  let n := Z.of_nat (nat_of_ascii c) in
  if (48 <=? n) && (n <=? 57) then Some (n - 48) else None.

(** The longest prefix of decimal digits, as [parseInt] reads it. *)
Fixpoint digitsPrefix (s : string) (acc : option Z) : option Z :=
  match s with
  | String c rest =>
      match digitValue c with
      | Some d => digitsPrefix rest (Some (10 * default 0 acc + d))
      | None => acc
      end
  | EmptyString => acc
  end.

(** [parseInt] on an optional sign and decimal digits; leading white space
    and radix prefixes, which no bitrate string here carries, are left out. *)
Definition parseInt (s : string) : JsValue :=
  match s with
  | String "-" rest =>
      match digitsPrefix rest None with Some z => JsNum (- z) | None => JsNaN end
  | String "+" rest =>
      match digitsPrefix rest None with Some z => JsNum z | None => JsNaN end
  | _ => match digitsPrefix s None with Some z => JsNum z | None => JsNaN end
  end.

Fixpoint allDigits (s : string) (acc : Z) : option Z :=
  match s with
  | String c rest =>
      match digitValue c with
      | Some d => allDigits rest (10 * acc + d)
      | None => None
      end
  | EmptyString => Some acc
  end.

(** [Number] on a string of decimal digits (the empty string gives 0);
    anything else is NaN here. *)
Definition Number (s : string) : JsValue :=
  match allDigits s 0 with Some z => JsNum z | None => JsNaN end.

(** [s.replace(c, '')] with a one-character pattern: drops its first
    occurrence. *)
Fixpoint removeFirst (c : ascii) (s : string) : string :=
  match s with
  | String d rest => if Ascii.eqb c d then rest else String d (removeFirst c rest)
  | EmptyString => EmptyString
  end.

(** [s.split(c)] with a one-character separator. *)
Fixpoint splitOn (c : ascii) (s : string) : list string :=
  match s with
  | EmptyString => [EmptyString]
  | String d rest =>
      if Ascii.eqb c d then EmptyString :: splitOn c rest
      else match splitOn c rest with
           | hd :: tl => String d hd :: tl
           | [] => [String d EmptyString]
           end
  end.

Record Quality := mkQuality {
  qualityName : string;
  qualityResolution : string;
  qualityBitrate : string
}.

Definition qualities : list Quality :=
  [ mkQuality "720p" "1280x720" "2500k";
    mkQuality "480p" "854x480" "1200k";
    mkQuality "360p" "640x360" "800k" ].

Definition newline : string := String "010" EmptyString.
Definition dquote : string := String "034" EmptyString.

Definition qualityBandwidth (q : Quality) : JsValue :=
  jsTimes (parseInt (removeFirst "k" (qualityBitrate q))) 1000.

Definition qualityDimensions (q : Quality) : JsValue * JsValue :=
  let parts := Number <$> splitOn "x" (qualityResolution q) in
  (default JsUndefined (parts !! 0%nat), default JsUndefined (parts !! 1%nat)).

(** The two lines appended per quality (lines 849-850). *)
Definition streamInfLine (q : Quality) : string :=
  let '(width, height) := qualityDimensions q in
  "#EXT-X-STREAM-INF:BANDWIDTH=" +:+ jsToString (qualityBandwidth q)
  +:+ ",RESOLUTION=" +:+ jsToString width +:+ "x" +:+ jsToString height
  +:+ ",NAME=" +:+ dquote +:+ qualityName q +:+ dquote +:+ newline.

Definition uriOf (q : Quality) : string := qualityName q +:+ "/playlist.m3u8".

Definition masterEntry (q : Quality) : string :=
  streamInfLine q +:+ uriOf q +:+ newline +:+ newline.

Definition masterPlaylistPath (cfg : HLSConfig) (sessionId : string) : Path :=
  path_join (path_join (outputDir cfg) sessionId) "master.m3u8".

Definition masterContent (qs : list Quality) : string :=
  fold_left (fun acc q => acc +:+ masterEntry q) qs
    ("#EXTM3U" +:+ newline +:+ "#EXT-X-VERSION:3" +:+ newline +:+ newline).

(** The file system as far as the adaptive path meets it: the directories
    that exist and the files written. *)
Record FileSystem := mkFileSystem {
  dirs : gset Path;
  files : gmap Path string
}.

(** [fs.mkdir(p, { recursive: true })] creates [p] and its ancestors. *)
Definition ancestors (p : Path) : gset Path :=
  list_to_set ((fun n => take n p) <$> seq 1 (length p)).

(** [ensureDirectoryExists] (lines 790-797), when the mkdir it may need
    succeeds. *)
Definition ensureDirectoryExists (p : Path) (fs : FileSystem) : FileSystem :=
  if decide (p ∈ dirs fs) then fs
  else mkFileSystem (dirs fs ∪ ancestors p) (files fs).

(** [fs.writeFile]: fails when the parent directory does not exist. *)
Definition writeFile (p : Path) (content : string) (fs : FileSystem)
  : Error + FileSystem :=
  if decide (path_dirname p ∈ dirs fs)
  then inr (mkFileSystem (dirs fs) (<[p := content]> (files fs)))
  else inl (WriteError p).

(** [createMasterPlaylist]; the [playlistUrls] argument is not read. *)
Definition createMasterPlaylist (cfg : HLSConfig) (sessionId : string)
    (qs : list Quality) (playlistUrls : list Path) (fs : FileSystem)
  : Error + FileSystem :=
  writeFile (masterPlaylistPath cfg sessionId) (masterContent qs) fs.

Definition tierConfig (cfg : HLSConfig) (index : nat) (q : Quality) : HLSConfig :=
  {| outputDir := outputDir cfg;
     segmentDuration := segmentDuration cfg;
     playlistLength := playlistLength cfg;
     resolution := qualityResolution q;
     videoBitrate := qualityBitrate q;
     audioBitrate := audioBitrate cfg;
     baseRtpPort := baseRtpPort cfg + Z.of_nat index * 100 |}.

Definition tierSessionId (sessionId : string) (q : Quality) : string :=
  sessionId +:+ "_" +:+ qualityName q.

Record AdaptiveRun := mkAdaptiveRun {
  playlistUrls : list Path;          (* pushed so far *)
  transcoders : list HLSState;       (* one private transcoder per tier *)
  fileSystem : FileSystem
}.

(** One iteration of the [for] loop (lines 812-827): a fresh transcoder with
    the tier's configuration, [init], [startTranscoding]. *)
Definition startTier (env : StartEnv) (cfg : HLSConfig) (sessionId : string)
    (prods : list Producer) (index : nat) (q : Quality) (run : AdaptiveRun)
  : Error + AdaptiveRun :=
  let customConfig := tierConfig cfg index q in
  let transcoder := createHLSTranscoder customConfig in
  let fs1 := ensureDirectoryExists (outputDir customConfig) (fileSystem run) in
  let qualitySessionId := tierSessionId sessionId q in
  let r := startTranscoding env transcoder qualitySessionId prods in
  match outcome r with
  | inr playlistUrl =>
      (* the call got past line 109, so the session directory exists *)
      let fs2 :=
        ensureDirectoryExists
          (path_join (outputDir customConfig) qualitySessionId) fs1 in
      inr (mkAdaptiveRun (playlistUrls run ++ [playlistUrl])
             (transcoders run ++ [stateAfter r]) fs2)
  | inl e => inl e
  end.

Fixpoint startTiers (envs : nat -> StartEnv) (cfg : HLSConfig) (sessionId : string)
    (prods : list Producer) (index : nat) (qs : list Quality) (run : AdaptiveRun)
  : Error + AdaptiveRun :=
  match qs with
  | [] => inr run
  | q :: rest =>
      match startTier (envs index) cfg sessionId prods index q run with
      | inr run1 => startTiers envs cfg sessionId prods (S index) rest run1
      | inl e => inl e
      end
  end.

(** [startAdaptiveTranscoding]: the tiers in order, then the master
    playlist.  The caller's own [sessions] and [usedPorts] are not touched:
    only [state.config] is read. *)
Definition startAdaptiveTranscoding (envs : nat -> StartEnv) (st : HLSState)
    (sessionId : string) (prods : list Producer) (fs : FileSystem)
  : Error + AdaptiveRun :=
  match startTiers envs (config st) sessionId prods 0 qualities
          (mkAdaptiveRun [] [] fs) with
  | inl e => inl e
  | inr run =>
      match createMasterPlaylist (config st) sessionId qualities
              (playlistUrls run) (fileSystem run) with
      | inl e => inl e
      | inr fs1 => inr (mkAdaptiveRun (playlistUrls run) (transcoders run) fs1)
      end
  end.

(** ** Batched forwarding (lines 975-1016)

    The closure returned by [createBatchedRtpForwarder] owns the array
    [packets] and the timer handle [batchTimeout]. *)
Record Batcher := mkBatcher {
  heldPackets : list Buffer;
  timerArmed : bool
}.

Definition BATCH_SIZE : nat := 10.

Definition createBatchedRtpForwarder : Batcher := mkBatcher [] false.

(** [flushBatch] (lines 983-998): [Buffer.concat(packets)] goes to stdin
    in one write when stdin is writable; the array is emptied either way. *)
Definition flushBatch (b : Batcher) (session : TranscodingSession)
  : Batcher * TranscodingSession * list Effect :=
  match heldPackets b with
  | [] => (b, session, [])
  | _ :: _ =>
      let '(session1, eff) := forwardToStdin (concat (heldPackets b)) session in
      (mkBatcher [] false, session1, eff)
  end.

(** The returned function (lines 1000-1015), called with one datagram. *)
Definition batchedForward (rtpPacket : Buffer) (b : Batcher)
    (session : TranscodingSession) : Batcher * TranscodingSession * list Effect :=
  let b1 := mkBatcher (heldPackets b ++ [rtpPacket]) (timerArmed b) in
  if bool_decide (BATCH_SIZE <= length (heldPackets b1))%nat
  then flushBatch (mkBatcher (heldPackets b1) false) session
  else if negb (timerArmed b1)
  then (mkBatcher (heldPackets b1) true, session, [])
  else (b1, session, []).

(** What can happen to a forwarder: a datagram is handed to it, or its
    5 ms timer fires (which takes an armed timer). *)
Inductive BatchEvent := BatchPush (rtpPacket : Buffer) | BatchTimer.

Definition batchStep (ev : BatchEvent) (b : Batcher) (session : TranscodingSession)
  : Batcher * TranscodingSession :=
  match ev with
  | BatchPush rtpPacket => fst (batchedForward rtpPacket b session)
  | BatchTimer =>
      if timerArmed b then fst (flushBatch b session) else (b, session)
  end.

Definition batchRun (evs : list BatchEvent) (b : Batcher)
    (session : TranscodingSession) : Batcher * TranscodingSession :=
  foldl (fun acc ev => batchStep ev (fst acc) (snd acc)) (b, session) evs.

(** ** Remaining handlers and maintenance calls *)

Fixpoint includes (needle s : string) : bool :=
  String.prefix needle s
  || match s with
     | String _ rest => includes needle rest
     | EmptyString => false
     end.

(** The stderr 'data' handler (lines 596-611): only the progress branch
    writes to the session. *)
Definition onStderrData (tnow : Z) (output : string)
    (session : TranscodingSession) : TranscodingSession :=
  if includes "error" output || includes "Error" output then session
  else if includes "frame=" output then
    if (lastPacketTime (stats session) =? 0)
       || (5000 <? tnow - lastPacketTime (stats session))
    then set_stats (mkStats (packetsReceived (stats session))
                            (bytesReceived (stats session)) tnow) session
    else session
  else session.

(** What one [recoverSession] call meets outside the process. *)
Record RecoverEnv := mkRecoverEnv {
  respawned : option nat;
  rebound : MediaKind -> bool;
  reconnectOk : MediaKind -> bool
}.

(** Lines 936-942: a missing socket is recovered; [address()] on a socket
    that is no longer running throws. *)
Definition recoverSocket (env : RecoverEnv) (k : MediaKind)
    (session : TranscodingSession) : Error + TranscodingSession :=
  match getKind k (producers session) with
  | Some _ =>
      match getKind k (rtpSockets session) with
      | None => inr (fst (attemptSocketRecovery (rebound env k) k session))
      | Some sock =>
          if socketClosed sock then inl SocketNotRunning else inr session
      end
  | None => inr session
  end.

Definition reconnect (env : RecoverEnv) (k : MediaKind)
    (session : TranscodingSession) : Error + TranscodingSession :=
  match getKind k (producers session), getKind k (consumers session) with
  | Some producer, None =>
      match createPlainTransportForProducer (reconnectOk env k) producer
              "127.0.0.1" (getKind k (rtpPorts session)) with
      | inr (transport, consumer) =>
          inr (set_consumers (setKind k (Some consumer) (consumers session))
                 (set_plainTransports
                    (setKind k (Some transport) (plainTransports session)) session))
      | inl e => inl e
      end
  | _, _ => inr session
  end.

(** [recoverSession] (lines 916-973) on a tracked session: the returned
    boolean and the session as the call leaves it. *)
Definition recoverTracked (cfg : HLSConfig) (env : RecoverEnv)
    (session : TranscodingSession) : bool * TranscodingSession :=
  let dead := match process session with
              | Some p => killed p
              | None => true
              end in
  let restarted :=
    if dead then
      match startFFmpegProcess cfg (respawned env) session
              (path_join (outputPath session) "playlist.m3u8") with
      | inr newProcess => inr (set_process (Some newProcess) session)
      | inl e => inl e
      end
    else inr session in
  match restarted with
  | inl _ => (false, session)
  | inr session1 =>
      match recoverSocket env Video session1 with
      | inl _ => (false, session1)
      | inr session2 =>
          match recoverSocket env Audio session2 with
          | inl _ => (false, session2)
          | inr session3 =>
              match reconnect env Video session3 with
              | inl _ => (false, session3)
              | inr session4 =>
                  match reconnect env Audio session4 with
                  | inl _ => (false, session4)
                  | inr session5 => (true, set_isActive true session5)
                  end
              end
          end
      end
  end.

Definition recoverSession (env : RecoverEnv) (st : HLSState) (sessionId : string)
  : bool * HLSState :=
  match sessions st !! sessionId with
  | None => (false, st)
  | Some session =>
      let '(ok, session1) := recoverTracked (config st) env session in
      (ok, set_sessions (<[sessionId := session1]> (sessions st)) st)
  end.

(** [cleanup] (lines 763-774): every tracked id is stopped. *)
Definition cleanup (grace : string -> bool) (st : HLSState) : HLSState :=
  foldr (fun sessionId acc => snd (stopTranscoding (grace sessionId) acc sessionId))
        st (elements (dom (sessions st))).

(** ** Queries (lines 718-746) *)

Definition getPlaylistUrl (sessionId : string) : string :=
  "/hls/" +:+ sessionId +:+ "/playlist.m3u8".



(** ** The transcoder as a transition system

    One transition per exported call that writes the state and per event
    handler that writes a tracked session. *)
Definition updateSession (sessionId : string) (session : TranscodingSession)
    (st : HLSState) : HLSState :=
  set_sessions (<[sessionId := session]> (sessions st)) st.

Inductive step : HLSState -> HLSState -> Prop :=
| step_start env st sessionId prods :
    step st (stateAfter (startTranscoding env st sessionId prods))
| step_stop grace st sessionId :
    step st (snd (stopTranscoding grace st sessionId))
| step_cleanup grace st :
    step st (cleanup grace st)
| step_recover env st sessionId :
    step st (snd (recoverSession env st sessionId))
| step_datagram tnow k rtpPacket st sessionId session :
    sessions st !! sessionId = Some session ->
    step st (updateSession sessionId
               (fst (deliverDatagram tnow k rtpPacket session)) st)
| step_exit code signal st sessionId session :
    sessions st !! sessionId = Some session ->
    step st (updateSession sessionId (fst (processExit code signal session)) st)
| step_restart code signal exited delay spawn st sessionId session :
    sessions st !! sessionId = Some session ->
    snd (onProcessExit code signal exited) = Some delay ->
    step st (updateSession sessionId
               (restartFFmpeg (config st) spawn
                  (path_join (outputPath session) "playlist.m3u8") session) st)
| step_stderr tnow output st sessionId session :
    sessions st !! sessionId = Some session ->
    step st (updateSession sessionId (onStderrData tnow output session) st)
| step_socket_error bound k st sessionId session :
    sessions st !! sessionId = Some session ->
    step st (updateSession sessionId
               (fst (attemptSocketRecovery bound k session)) st).

(** The states a transcoder built with configuration [cfg] can be in. *)
Inductive reachable (cfg : HLSConfig) : HLSState -> Prop :=
| reachable_init : reachable cfg (createHLSTranscoder cfg)
| reachable_step st st' : reachable cfg st -> step st st' -> reachable cfg st'.

(** ** Vocabulary of the statements *)

(** The port a reservation made in state [st] returns. *)
Definition allocatedPort (st : HLSState) : Z := fst (getAvailablePort st).

(** No handler rewrites the identity of a session: its id, its ports, its
    producers, its start time, its output directory. *)
Definition sameFrame (s s' : TranscodingSession) : Prop :=
  id s' = id s /\ rtpPorts s' = rtpPorts s /\ producers s' = producers s /\
  startTime s' = startTime s /\ outputPath s' = outputPath s.

Definition present (k : MediaKind) (s : TranscodingSession) : Prop :=
  is_Some (getKind k (producers s)).

Definition portOf (k : MediaKind) (s : TranscodingSession) : Z :=
  getKind k (rtpPorts s).

(** The invariant that links the session map and the used-port set. *)
Record PortsConsistent (st : HLSState) : Prop := mkPortsConsistent {
  pc_base : 2 <= baseRtpPort (config st);
  pc_reserved : forall sid s k,
    sessions st !! sid = Some s -> present k s ->
    (exists n : nat, portOf k s = baseRtpPort (config st) + 2 * Z.of_nat n) /\
    portOf k s ∈ usedPorts st /\ portOf k s + 1 ∈ usedPorts st;
  pc_unique : forall sid1 s1 k1 sid2 s2 k2,
    sessions st !! sid1 = Some s1 -> sessions st !! sid2 = Some s2 ->
    present k1 s1 -> present k2 s2 ->
    portOf k1 s1 = portOf k2 s2 -> sid1 = sid2 /\ k1 = k2;
  pc_absent : forall sid s k,
    sessions st !! sid = Some s -> ~ present k s -> portOf k s = 0;
  pc_owned : forall q, q ∈ usedPorts st ->
    exists sid s k, sessions st !! sid = Some s /\ present k s /\
      (q = portOf k s \/ q = portOf k s + 1)
}.

(** Neither counter has gone down from [s] to [s']. *)
Definition statsGrow (s s' : TranscodingSession) : Prop :=
  packetsReceived (stats s) <= packetsReceived (stats s') /\
  bytesReceived (stats s) <= bytesReceived (stats s').



(** [p] is the lowest even port at or above [base] that is not in [used]. *)
Definition lowestUnusedEven (base : Z) (used : gset Z) (p : Z) : Prop :=
  Z.even p = true /\ base <= p /\ (p ∉ used) /\
  forall q, Z.even q = true -> base <= q -> q ∉ used -> p <= q.

(** What the ingest contract asks of one datagram: both counters move, the
    timestamp is set, and the bytes reach the stdin of the process. *)
Definition countedAndForwarded (tnow : Z) (rtpPacket : Buffer)
    (s s' : TranscodingSession) : Prop :=
  packetsReceived (stats s') = packetsReceived (stats s) + 1 /\
  bytesReceived (stats s') = bytesReceived (stats s) + Z.of_nat (length rtpPacket) /\
  lastPacketTime (stats s') = tnow /\
  exists p p', process s = Some p /\ process s' = Some p' /\
    stdinWritten p' = stdinWritten p ++ [rtpPacket].

(** The file a relative URI of a playlist stored at [playlist] names. *)
Definition resolveUri (playlist : Path) (uri : string) : Path :=
  path_dirname playlist ++ splitOn "/" uri.

(** *** Sample inputs *)

Definition videoProducer1 : Producer := mkProducer "video-1" Video true.
Definition audioProducer1 : Producer := mkProducer "audio-1" Audio true.

(** A world in which every external call succeeds. *)
Definition calmEnv (t : Z) (p : nat) : StartEnv :=
  mkStartEnv t true (Some p) (fun _ => true) true.

Definition freshDefault : HLSState := createHLSTranscoder DEFAULT_HLS_CONFIG.

(** The default transcoder after a successful start of "s1" with both
    kinds. *)
Definition afterS1 : HLSState :=
  stateAfter (startTranscoding (calmEnv 1000 7) freshDefault "s1"
                [videoProducer1; audioProducer1]).

Definition withBasePort (base : Z) (cfg : HLSConfig) : HLSConfig :=
  mkHLSConfig (outputDir cfg) (segmentDuration cfg) (playlistLength cfg)
    (resolution cfg) (videoBitrate cfg) (audioBitrate cfg) base.


(** "s1" after its ffmpeg process has died with exit code 1. *)
Definition afterS1Exit : HLSState :=
  match sessions afterS1 !! "s1" with
  | Some s => updateSession "s1" (fst (processExit (Some 1) None s)) afterS1
  | None => afterS1
  end.

Definition samplePacket : Buffer := [x80; x60; x00; x01].

(** The stream entry of quality [q] in the master playlist stored at
    [master] names the file [url]. *)
Definition pointsAt (master : Path) (q : Quality) (url : Path) : Prop :=
  resolveUri master (uriOf q) = url.

(** An output tree in which the directory of the master playlist of "s1"
    has been created beforehand, and an empty one. *)
Definition preparedFs : FileSystem := mkFileSystem {[ ["hls-output"; "s1"] ]} ∅.
Definition emptyFs : FileSystem := mkFileSystem ∅ ∅.

Definition adaptiveS1 (fs : FileSystem) : Error + AdaptiveRun :=
  startAdaptiveTranscoding (fun i => calmEnv 0 (S i)) freshDefault "s1"
    [videoProducer1; audioProducer1] fs.

(** "s2", video only, started after "s1". *)
Definition afterS2 : HLSState :=
  stateAfter (startTranscoding (calmEnv 2000 8) afterS1 "s2" [videoProducer1]).

(** A world in which ffmpeg cannot be spawned. *)
Definition noSpawnEnv : StartEnv := mkStartEnv 0 true None (fun _ => true) true.

(** The datagrams of a list delivered one after the other to kind [k]. *)
Definition deliverAll (tnow : Z) (k : MediaKind) (packets : list Buffer)
    (s : TranscodingSession) : TranscodingSession :=
  foldl (fun acc rtpPacket => fst (deliverDatagram tnow k rtpPacket acc)) s packets.

(** The datagrams handed to a forwarder by a list of events, in order. *)
Definition pushedPackets (evs : list BatchEvent) : list Buffer :=
  omap (fun ev => match ev with BatchPush d => Some d | BatchTimer => None end) evs.

(** The bytes a process has been sent on stdin, in order. *)
Definition stdinBytes (s : TranscodingSession) : Buffer :=
  match process s with
  | Some p => concat (stdinWritten p)
  | None => []
  end.

(** The session has a process whose stdin can be written. *)
Definition stdinWritable (s : TranscodingSession) : Prop :=
  exists p, process s = Some p /\ stdinDestroyed p = false.

(** The session has a process, and that process is no longer alive. *)
Definition processDead (s : TranscodingSession) : Prop :=
  exists p, process s = Some p /\ running p = false /\ killed p = false.

(** No tracked session's process has been signalled by [kill]. *)
Definition noneKilled (st : HLSState) : Prop :=
  forall sid s p, sessions st !! sid = Some s -> process s = Some p ->
    killed p = false.

(** What holds of a forwarder between two calls. *)
Definition batcherOk (b : Batcher) : Prop :=
  (length (heldPackets b) < BATCH_SIZE)%nat /\
  (timerArmed b = true <-> heldPackets b <> []).





(** * Properties *)

(** ** Port allocator *)

Section PortScan.
Implicit Types (used : gset Z) (port : Z).

Lemma scanPort_enough_fuel fuel used port :
  (size (filter (fun q => (port <= q)%Z) used) <= fuel)%nat ->
  is_Some (scanPort fuel used port).
Proof.
  revert port. induction fuel as [|fuel IH]; intros port Hsize; simpl.
  - destruct (decide (port ∈ used)) as [Hin|]; [|eauto].
    assert (filter (fun q => (port <= q)%Z) used ≡ ∅) as Hempty.
    { apply size_empty_inv. lia. }
    exfalso. apply (not_elem_of_empty (C:=gset Z) port).
    apply Hempty. apply elem_of_filter. split; [lia|done].
  - destruct (decide (port ∈ used)) as [Hin|]; [|eauto].
    apply IH.
    assert (filter (fun q => (port + 2 <= q)%Z) used ⊂ filter (fun q => (port <= q)%Z) used)
      as Hsub.
    { split.
      - intros q. rewrite !elem_of_filter. intros [? ?]. split; [lia|done].
      - intros Hrev. specialize (Hrev port).
        rewrite !elem_of_filter in Hrev.
        destruct Hrev as [? _]; [split; [lia|done]|lia]. }
    apply subset_size in Hsub. lia.
Qed.

Lemma scanPort_terminates used port :
  is_Some (scanPort (size used) used port).
Proof.
  apply scanPort_enough_fuel. apply subseteq_size.
  intros q. rewrite elem_of_filter. tauto.
Qed.

Lemma scanPort_result fuel used port p :
  scanPort fuel used port = Some p ->
  (p ∉ used) /\
  exists k : nat, p = port + 2 * Z.of_nat k /\
    forall j : nat, (j < k)%nat -> port + 2 * Z.of_nat j ∈ used.
Proof.
  revert port. induction fuel as [|fuel IH]; intros port; simpl.
  - destruct (decide (port ∈ used)); [done|]. intros [= <-].
    split; [done|]. exists 0%nat. split; [lia|]. intros j Hj. lia.
  - destruct (decide (port ∈ used)) as [Hin|].
    + intros Hscan. destruct (IH _ Hscan) as [Hfree [k [-> Hbelow]]].
      split; [done|]. exists (S k). split; [lia|].
      intros [|j] Hj.
      * replace (port + 2 * Z.of_nat 0) with port by lia. done.
      * replace (port + 2 * Z.of_nat (S j)) with (port + 2 + 2 * Z.of_nat j) by lia.
        apply Hbelow. lia.
    + intros [= <-]. split; [done|]. exists 0%nat. split; [lia|].
      intros j Hj. lia.
Qed.
End PortScan.

Lemma getAvailablePort_scan st :
  scanPort (size (usedPorts st)) (usedPorts st) (baseRtpPort (config st))
  = Some (allocatedPort st).
Proof.
  unfold allocatedPort, getAvailablePort. simpl.
  destruct (scanPort_terminates (usedPorts st) (baseRtpPort (config st))) as [p Hp].
  by rewrite Hp.
Qed.

Lemma getAvailablePort_fresh st : allocatedPort st ∉ usedPorts st.
Proof. exact (proj1 (scanPort_result _ _ _ _ (getAvailablePort_scan st))). Qed.

Lemma getAvailablePort_offset st :
  exists k : nat,
    allocatedPort st = baseRtpPort (config st) + 2 * Z.of_nat k /\
    forall j : nat, (j < k)%nat ->
      baseRtpPort (config st) + 2 * Z.of_nat j ∈ usedPorts st.
Proof. exact (proj2 (scanPort_result _ _ _ _ (getAvailablePort_scan st))). Qed.

Lemma getAvailablePort_state st :
  snd (getAvailablePort st)
  = set_usedPorts ({[allocatedPort st + 1]} ∪ ({[allocatedPort st]} ∪ usedPorts st)) st.
Proof. reflexivity. Qed.

Lemma getAvailablePort_reserves st q :
  q ∈ usedPorts (snd (getAvailablePort st)) <->
  q = allocatedPort st \/ q = allocatedPort st + 1 \/ q ∈ usedPorts st.
Proof.
  rewrite getAvailablePort_state. simpl.
  rewrite !elem_of_union, !elem_of_singleton. tauto.
Qed.

(** ** What the handlers leave alone *)

Lemma sameFrame_refl s : sameFrame s s.
Proof. by repeat split. Qed.

Lemma sameFrame_trans s1 s2 s3 :
  sameFrame s1 s2 -> sameFrame s2 s3 -> sameFrame s1 s3.
Proof.
  intros (?&?&?&?&?) (?&?&?&?&?). repeat split; congruence.
Qed.

Create HintDb frame.
#[local] Hint Resolve sameFrame_refl : frame.

Ltac frame_cases :=
  repeat (simpl in *; case_match; simplify_eq);
  simpl; try (by repeat split).

Lemma forwardToStdin_frame data s : sameFrame s (fst (forwardToStdin data s)).
Proof. unfold forwardToStdin. frame_cases. Qed.

Lemma onRtpMessage_frame tnow data s : sameFrame s (fst (onRtpMessage tnow data s)).
Proof. unfold onRtpMessage, forwardToStdin. frame_cases. Qed.

Lemma deliverDatagram_frame tnow k data s :
  sameFrame s (fst (deliverDatagram tnow k data s)).
Proof.
  unfold deliverDatagram, onRecoveredMessage.
  destruct (getKind k (rtpSockets s)) as [sock|]; [|apply sameFrame_refl].
  destruct (socketClosed sock); [apply sameFrame_refl|].
  destruct (messageHandler sock);
    [apply onRtpMessage_frame | apply forwardToStdin_frame].
Qed.

Lemma setupRtpReceiver_frame k s : sameFrame s (setupRtpReceiver k s).
Proof. unfold setupRtpReceiver. frame_cases. Qed.

Lemma setupRtpReceiversWithForwarding_frame s :
  sameFrame s (setupRtpReceiversWithForwarding s).
Proof.
  unfold setupRtpReceiversWithForwarding.
  eapply sameFrame_trans; apply setupRtpReceiver_frame.
Qed.

Lemma attemptSocketRecovery_frame bound k s :
  sameFrame s (fst (attemptSocketRecovery bound k s)).
Proof. unfold attemptSocketRecovery. frame_cases. Qed.

Lemma connectProducer_frame ok k s s' :
  connectProducer ok k s = inr s' -> sameFrame s s'.
Proof. unfold connectProducer. intros H. frame_cases. Qed.

Lemma connectProducersToRtp_frame ok s :
  sameFrame s (snd (connectProducersToRtp ok s)).
Proof.
  unfold connectProducersToRtp.
  destruct (connectProducer ok Video s) as [e|s1] eqn:H1; [apply sameFrame_refl|].
  apply connectProducer_frame in H1.
  destruct (connectProducer ok Audio s1) as [e|s2] eqn:H2; [done|].
  apply connectProducer_frame in H2. simpl. by eapply sameFrame_trans.
Qed.

Lemma processExit_frame code signal s : sameFrame s (fst (processExit code signal s)).
Proof. unfold processExit, onProcessExit. frame_cases. Qed.

Lemma restartFFmpeg_frame cfg spawn p s : sameFrame s (restartFFmpeg cfg spawn p s).
Proof.
  unfold restartFFmpeg, startFFmpegProcess.
  destruct spawn; [|apply sameFrame_refl].
  eapply sameFrame_trans; [|apply setupRtpReceiversWithForwarding_frame].
  by repeat split.
Qed.

Lemma onStderrData_frame tnow output s : sameFrame s (onStderrData tnow output s).
Proof. unfold onStderrData. frame_cases. Qed.

Lemma recoverSocket_frame env k s s' :
  recoverSocket env k s = inr s' -> sameFrame s s'.
Proof.
  unfold recoverSocket. intros H.
  destruct (getKind k (producers s)); [|by simplify_eq; apply sameFrame_refl].
  destruct (getKind k (rtpSockets s)) as [sock|].
  - destruct (socketClosed sock); simplify_eq. apply sameFrame_refl.
  - simplify_eq. apply attemptSocketRecovery_frame.
Qed.

Lemma reconnect_frame env k s s' : reconnect env k s = inr s' -> sameFrame s s'.
Proof. unfold reconnect. intros H. frame_cases. Qed.

Lemma recoverTracked_frame cfg env s : sameFrame s (snd (recoverTracked cfg env s)).
Proof.
  unfold recoverTracked.
  match goal with
  | |- context [match ?r with inl _ => (false, s) | inr _ => _ end] =>
      assert (forall s1, r = inr s1 -> sameFrame s s1) as Hre;
      [|destruct r as [e|s1]; [apply sameFrame_refl|]]
  end.
  { unfold startFFmpegProcess. intros s1 H.
    destruct (match process s with Some p => killed p | None => true end);
      [destruct (respawned env)|]; simplify_eq; by repeat split. }
  specialize (Hre s1 eq_refl).
  destruct (recoverSocket env Video s1) as [e|s2] eqn:H2; [done|].
  apply recoverSocket_frame in H2.
  destruct (recoverSocket env Audio s2) as [e|s3] eqn:H3;
    [by eapply sameFrame_trans|].
  apply recoverSocket_frame in H3.
  destruct (reconnect env Video s3) as [e|s4] eqn:H4;
    [by do 2 (eapply sameFrame_trans; [|eassumption])|].
  apply reconnect_frame in H4.
  destruct (reconnect env Audio s4) as [e|s5] eqn:H5; simpl.
  - eapply sameFrame_trans; [|exact H4].
    eapply sameFrame_trans; [|exact H3]. by eapply sameFrame_trans.
  - apply reconnect_frame in H5.
    eapply sameFrame_trans; [|split; [|split; [|split; [|split]]]; reflexivity].
    eapply sameFrame_trans; [|exact H5].
    eapply sameFrame_trans; [|exact H4].
    eapply sameFrame_trans; [|exact H3]. by eapply sameFrame_trans.
Qed.

(** ** Shape of a start attempt *)

Lemma launchSession_frame env cfg p s : sameFrame s (snd (launchSession env cfg p s)).
Proof.
  unfold launchSession, startFFmpegProcess.
  destruct (spawned env) as [n|]; [|apply sameFrame_refl].
  match goal with
  | |- context [connectProducersToRtp ?ok ?s0] =>
      pose proof (connectProducersToRtp_frame ok s0) as Hc;
      destruct (connectProducersToRtp ok s0) as [[e|] s2]
  end; simpl in *;
  (eapply sameFrame_trans; [|exact Hc]);
  (eapply sameFrame_trans; [|apply setupRtpReceiversWithForwarding_frame]);
  by repeat split.
Qed.

Lemma startTranscoding_try_cases env st sid prods :
  let vp := findProducer Video prods in
  let ap := findProducer Audio prods in
  let a1 := allocateFor vp st in
  let a2 := allocateFor ap (snd a1) in
  (exists e, startTranscoding_try env st sid prods = (inl e, st)) \/
  (sessions st !! sid = None /\ (is_Some vp \/ is_Some ap) /\
   exists r s',
     launchSession env (config st) (playlistPathOf (config st) sid)
       (newSession env (config st) sid vp ap (fst a1) (fst a2)) = (r, s') /\
     startTranscoding_try env st sid prods = (r, putSession s' (snd a2))).
Proof.
  intros vp ap a1 a2. unfold startTranscoding_try.
  case_bool_decide as Hdup; [left; eauto|].
  destruct (mkdirOk env); simpl; [|left; eauto].
  fold vp ap.
  assert (sessions st !! sid = None) as Hnone.
  { destruct (sessions st !! sid) eqn:E; [|done]. exfalso. apply Hdup. eauto. }
  assert (exists r s',
      launchSession env (config st) (playlistPathOf (config st) sid)
        (newSession env (config st) sid vp ap (fst a1) (fst a2)) = (r, s') /\
      (let '(videoPort, st1) := allocateFor vp st in
       let '(audioPort, st2) := allocateFor ap st1 in
       let '(result, session1) :=
         launchSession env (config st) (playlistPathOf (config st) sid)
           (newSession env (config st) sid vp ap videoPort audioPort) in
       (result, putSession session1 st2))
      = (r, putSession s' (snd a2))) as Hmain.
  { subst a2 a1.
    destruct (allocateFor vp st) as [videoPort st1]. simpl.
    destruct (allocateFor ap st1) as [audioPort st2]. simpl.
    destruct (launchSession _ _ _ _) as [result session1]. eauto. }
  destruct vp as [v|] eqn:Ev; [|destruct ap as [a|] eqn:Ea; [|left; eauto]].
  - right. split; [done|]. split; [left; eauto|]. exact Hmain.
  - right. split; [done|]. split; [right; eauto|]. exact Hmain.
Qed.

Lemma startTranscoding_try_shape env st sid prods :
  let vp := findProducer Video prods in
  let ap := findProducer Audio prods in
  let a1 := allocateFor vp st in
  let a2 := allocateFor ap (snd a1) in
  let r := startTranscoding_try env st sid prods in
  (snd r = st /\ exists e, fst r = inl e) \/
  (sessions st !! sid = None /\ (is_Some vp \/ is_Some ap) /\
   exists s, snd r = putSession s (snd a2) /\
     sameFrame (newSession env (config st) sid vp ap (fst a1) (fst a2)) s).
Proof.
  intros vp ap a1 a2 r. subst r. unfold startTranscoding_try.
  case_bool_decide as Hdup; [left; eauto|].
  destruct (mkdirOk env); simpl; [|left; eauto].
  fold vp ap.
  assert (sessions st !! sid = None) as Hnone.
  { destruct (sessions st !! sid) eqn:E; [|done]. exfalso. apply Hdup. eauto. }
  assert (is_Some vp \/ is_Some ap ->
    exists s,
      snd (let '(videoPort, st1) := allocateFor vp st in
           let '(audioPort, st2) := allocateFor ap st1 in
           let '(result, session1) :=
             launchSession env (config st) (playlistPathOf (config st) sid)
               (newSession env (config st) sid vp ap videoPort audioPort) in
           (result, putSession session1 st2))
      = putSession s (snd a2) /\
      sameFrame (newSession env (config st) sid vp ap (fst a1) (fst a2)) s) as Hmain.
  { intros _. subst a2 a1.
    destruct (allocateFor vp st) as [videoPort st1] eqn:E1. simpl.
    destruct (allocateFor ap st1) as [audioPort st2] eqn:E2. simpl.
    pose proof (launchSession_frame env (config st) (playlistPathOf (config st) sid)
                  (newSession env (config st) sid vp ap videoPort audioPort)) as Hl.
    destruct (launchSession _ _ _ _) as [result session1]. simpl in *. eauto. }
  destruct vp as [v|] eqn:Ev; [|destruct ap as [a|] eqn:Ea; [|left; eauto]].
  - right. split; [done|]. split; [left; eauto|]. apply Hmain. left; eauto.
  - right. split; [done|]. split; [right; eauto|]. apply Hmain. right; eauto.
Qed.

(** ** The port pool and the sessions that own it *)

Lemma PortsConsistent_init cfg :
  2 <= baseRtpPort cfg -> PortsConsistent (createHLSTranscoder cfg).
Proof.
  intros Hbase. split; simpl; done.
Qed.

Lemma present_frame k s s' : sameFrame s s' -> present k s' <-> present k s.
Proof. intros (_&_&Hp&_). unfold present. by rewrite Hp. Qed.

Lemma portOf_frame k s s' : sameFrame s s' -> portOf k s' = portOf k s.
Proof. intros (_&Hp&_). unfold portOf. by rewrite Hp. Qed.

Lemma PortsConsistent_update st sid s s' :
  sessions st !! sid = Some s -> sameFrame s s' ->
  PortsConsistent st -> PortsConsistent (updateSession sid s' st).
Proof.
  intros Hs Hf [Hbase Hres Huniq Habs Hown].
  assert (forall sid0 s0, <[sid:=s']> (sessions st) !! sid0 = Some s0 ->
            exists s1, sessions st !! sid0 = Some s1 /\ sameFrame s1 s0) as Hback.
  { intros sid0 s0. rewrite lookup_insert. case_decide; intros Hl; simplify_eq.
    - eauto.
    - eexists; split; [done|apply sameFrame_refl]. }
  split; simpl; [done|..].
  - intros sid0 s0 k H0 Hp. destruct (Hback _ _ H0) as (s1&H1&Hf1).
    rewrite (portOf_frame _ _ _ Hf1). apply (Hres sid0); [done|].
    by apply (present_frame _ _ _ Hf1).
  - intros sid1 s1 k1 sid2 s2 k2 H1 H2 Hp1 Hp2.
    destruct (Hback _ _ H1) as (t1&Ht1&Hf1), (Hback _ _ H2) as (t2&Ht2&Hf2).
    rewrite (portOf_frame _ _ _ Hf1), (portOf_frame _ _ _ Hf2).
    apply Huniq; try done;
      [by apply (present_frame _ _ _ Hf1)|by apply (present_frame _ _ _ Hf2)].
  - intros sid0 s0 k H0 Hp. destruct (Hback _ _ H0) as (s1&H1&Hf1).
    rewrite (portOf_frame _ _ _ Hf1). apply (Habs sid0); [done|].
    intros Hp'. apply Hp. by apply (present_frame _ _ _ Hf1).
  - intros q Hq. destruct (Hown q Hq) as (sid0&s0&k&H0&Hp&Hqs).
    destruct (decide (sid = sid0)) as [->|Hne].
    + simplify_eq. exists sid0, s', k. rewrite lookup_insert_eq.
      split; [done|]. split; [by apply (present_frame _ _ _ Hf)|].
      by rewrite (portOf_frame _ _ _ Hf).
    + exists sid0, s0, k. by rewrite lookup_insert_ne.
Qed.

Lemma elem_of_releasePorts ports used q :
  q ∈ releasePorts ports used <->
  q ∈ used /\ q <> video ports /\ q <> video ports + 1 /\
  q <> audio ports /\ q <> audio ports + 1.
Proof.
  unfold releasePorts. rewrite !elem_of_difference, !elem_of_singleton. tauto.
Qed.

Lemma stopTranscoding_tracked grace st sid s :
  sessions st !! sid = Some s ->
  snd (stopTranscoding grace st sid)
  = mkHLSState (config st) (delete sid (sessions st))
      (releasePorts (rtpPorts s) (usedPorts st)).
Proof. intros H. unfold stopTranscoding. by rewrite H. Qed.

Lemma stopTranscoding_unknown grace st sid :
  sessions st !! sid = None ->
  stopTranscoding grace st sid = ([WarnSessionNotFound sid], st).
Proof. intros H. unfold stopTranscoding. by rewrite H. Qed.

(** A port held by another session is none of the four ports a stop
    releases. *)
Lemma other_port_survives st sid s sid2 s2 k2 :
  PortsConsistent st ->
  sessions st !! sid = Some s -> sessions st !! sid2 = Some s2 ->
  sid2 <> sid -> present k2 s2 ->
  forall d, (d = 0 \/ d = 1) -> forall k e, (e = 0 \/ e = 1) ->
    portOf k2 s2 + d <> portOf k s + e.
Proof.
  intros [Hbase Hres Huniq Habs Hown] Hs Hs2 Hne Hp2 d Hd k e He.
  destruct (Hres _ _ _ Hs2 Hp2) as ([n2 Hn2]&_&_).
  destruct (decide (present k s)) as [Hp|Hp].
  - destruct (Hres _ _ _ Hs Hp) as ([n Hn]&_&_).
    intros Heq.
    assert (portOf k2 s2 = portOf k s) as Hsame by lia.
    destruct (Huniq _ _ _ _ _ _ Hs2 Hs Hp2 Hp Hsame) as [? _]. done.
  - rewrite (Habs _ _ _ Hs Hp). lia.
Qed.

Lemma PortsConsistent_stop grace st sid :
  PortsConsistent st -> PortsConsistent (snd (stopTranscoding grace st sid)).
Proof.
  intros Hpc. destruct (sessions st !! sid) as [s|] eqn:Hs;
    [|by rewrite stopTranscoding_unknown].
  rewrite (stopTranscoding_tracked _ _ _ _ Hs).
  pose proof Hpc as [Hbase Hres Huniq Habs Hown].
  split; simpl; [done|..].
  - intros sid2 s2 k2. rewrite lookup_delete. case_decide; [done|].
    intros Hs2 Hp2. destruct (Hres _ _ _ Hs2 Hp2) as (Hn&Hin&Hin1).
    split; [done|].
    pose proof (other_port_survives st sid s sid2 s2 k2 Hpc Hs Hs2
                  ltac:(congruence) Hp2) as Hsurv.
    rewrite !elem_of_releasePorts. repeat split; try done.
    + pose proof (Hsurv 0 (or_introl eq_refl) Video 0 (or_introl eq_refl)).
      unfold portOf in *; simpl in *; lia.
    + pose proof (Hsurv 0 (or_introl eq_refl) Video 1 (or_intror eq_refl)).
      unfold portOf in *; simpl in *; lia.
    + pose proof (Hsurv 0 (or_introl eq_refl) Audio 0 (or_introl eq_refl)).
      unfold portOf in *; simpl in *; lia.
    + pose proof (Hsurv 0 (or_introl eq_refl) Audio 1 (or_intror eq_refl)).
      unfold portOf in *; simpl in *; lia.
    + pose proof (Hsurv 1 (or_intror eq_refl) Video 0 (or_introl eq_refl)).
      unfold portOf in *; simpl in *; lia.
    + pose proof (Hsurv 1 (or_intror eq_refl) Video 1 (or_intror eq_refl)).
      unfold portOf in *; simpl in *; lia.
    + pose proof (Hsurv 1 (or_intror eq_refl) Audio 0 (or_introl eq_refl)).
      unfold portOf in *; simpl in *; lia.
    + pose proof (Hsurv 1 (or_intror eq_refl) Audio 1 (or_intror eq_refl)).
      unfold portOf in *; simpl in *; lia.
  - intros sid1 s1 k1 sid2 s2 k2. rewrite !lookup_delete.
    repeat case_decide; try done. apply Huniq.
  - intros sid2 s2 k2. rewrite lookup_delete. case_decide; [done|]. apply Habs.
  - intros q. rewrite elem_of_releasePorts. intros (Hq&Hv&Hv1&Ha&Ha1).
    destruct (Hown q Hq) as (sid0&s0&k&H0&Hp&Hqs).
    exists sid0, s0, k. rewrite lookup_delete. case_decide as Heq; [|done].
    subst sid0. simplify_eq. exfalso.
    destruct k; unfold portOf in Hqs; simpl in Hqs; lia.
Qed.

Lemma allocateFor_spec producer st :
  config (snd (allocateFor producer st)) = config st /\
  sessions (snd (allocateFor producer st)) = sessions st /\
  match producer with
  | Some _ =>
      (fst (allocateFor producer st) ∉ usedPorts st) /\
      (exists n : nat, fst (allocateFor producer st)
                       = baseRtpPort (config st) + 2 * Z.of_nat n) /\
      (forall q, q ∈ usedPorts (snd (allocateFor producer st)) <->
                 q = fst (allocateFor producer st) \/
                 q = fst (allocateFor producer st) + 1 \/ q ∈ usedPorts st)
  | None =>
      fst (allocateFor producer st) = 0 /\
      usedPorts (snd (allocateFor producer st)) = usedPorts st
  end.
Proof.
  destruct producer as [p|]; simpl; [|done].
  repeat split.
  - apply getAvailablePort_fresh.
  - destruct (getAvailablePort_offset st) as (n&Hn&_). eauto.
  - apply getAvailablePort_reserves.
  - apply getAvailablePort_reserves.
Qed.

Lemma PortsConsistent_register env st sid vp ap s :
  PortsConsistent st -> sessions st !! sid = None ->
  let a1 := allocateFor vp st in
  let a2 := allocateFor ap (snd a1) in
  sameFrame (newSession env (config st) sid vp ap (fst a1) (fst a2)) s ->
  PortsConsistent (putSession s (snd a2)).
Proof.
  intros [Hbase Hres Huniq Habs Hown] Hnone a1 a2 (Hid&Hports&Hprods&_).
  simpl in Hid, Hports, Hprods.
  destruct (allocateFor_spec vp st) as (Hc1&Hs1&Hv).
  destruct (allocateFor_spec ap (snd a1)) as (Hc2&Hs2&Ha).
  fold a1 in Hc1, Hs1, Hv, Hc2, Hs2, Ha. fold a2 in Hc2, Hs2, Ha.
  rewrite Hc1 in Ha.
  set (used1 := usedPorts (snd a1)) in *.
  set (used2 := usedPorts (snd a2)) in *.
  assert (forall q, q ∈ usedPorts st -> q ∈ used1) as Hmono1.
  { intros q Hq. destruct vp; [apply Hv; auto|]. destruct Hv as [_ ->]. done. }
  assert (forall q, q ∈ used1 -> q ∈ used2) as Hmono2.
  { intros q Hq. destruct ap; [apply Ha; auto|]. destruct Ha as [_ ->]. done. }
  assert (forall k, present k s ->
            (exists n : nat, portOf k s = baseRtpPort (config st) + 2 * Z.of_nat n) /\
            portOf k s ∈ used2 /\ portOf k s + 1 ∈ used2 /\
            (portOf k s ∉ usedPorts st) /\
            (k = Audio -> portOf k s ∉ used1)) as Hnew.
  { intros k Hp. unfold present, portOf in *. rewrite Hprods in Hp.
    rewrite Hports. destruct k; simpl in *.
    - destruct vp as [v|]; [|by destruct Hp]. destruct Hv as (Hf&Hn&Hu).
      repeat split; try done; apply Hmono2, Hu; auto.
    - destruct ap as [a|]; [|by destruct Hp]. destruct Ha as (Hf&Hn&Hu).
      repeat split; try done; try (apply Hu; auto).
      intros Hq. apply Hf. by apply Hmono1. }
  assert (forall sid0 s0, sessions st !! sid0 = Some s0 -> sid0 <> sid) as Hfresh.
  { intros sid0 s0 H0 ->. congruence. }
  unfold putSession. rewrite Hid.
  split; simpl; rewrite ?Hc2, ?Hc1, ?Hs2, ?Hs1; [done|..].
  - intros sid0 s0 k. rewrite lookup_insert. case_decide as Heq.
    + intros [= <-] Hp. destruct (Hnew k Hp) as (?&?&?&_). done.
    + intros H0 Hp. destruct (Hres _ _ _ H0 Hp) as (?&?&?).
      split; [done|]. split; by apply Hmono2, Hmono1.
  - intros sid1 s1 k1 sid2 s2 k2. rewrite !lookup_insert.
    case_decide as Heq1; case_decide as Heq2; intros H1 H2 Hp1 Hp2 Heq;
      simplify_eq.
    + split; [done|]. destruct (Hnew k1 Hp1) as (_&Hin1&_&_&Hnot1).
      destruct (Hnew k2 Hp2) as (_&Hin2&_&_&Hnot2).
      destruct k1, k2; try done; exfalso.
      * apply (Hnot2 eq_refl). rewrite <- Heq.
        unfold present, portOf in *. rewrite Hprods in Hp1. rewrite Hports.
        simpl in *. destruct vp; [|by destruct Hp1]. apply Hv. auto.
      * apply (Hnot1 eq_refl). rewrite Heq.
        unfold present, portOf in *. rewrite Hprods in Hp2. rewrite Hports.
        simpl in *. destruct vp; [|by destruct Hp2]. apply Hv. auto.
    + exfalso. destruct (Hnew k1 Hp1) as (_&_&_&Hnot&_). apply Hnot.
      rewrite Heq. by destruct (Hres _ _ _ H2 Hp2) as (_&?&_).
    + exfalso. destruct (Hnew k2 Hp2) as (_&_&_&Hnot&_). apply Hnot.
      rewrite <- Heq. by destruct (Hres _ _ _ H1 Hp1) as (_&?&_).
    + by apply (Huniq sid1 s1 k1 sid2 s2 k2).
  - intros sid0 s0 k. rewrite lookup_insert. case_decide as Heq.
    + intros [= <-] Hp. unfold present, portOf in *. rewrite Hprods in Hp.
      rewrite Hports. destruct k; simpl in *.
      * destruct vp; [exfalso; apply Hp; eauto|]. by destruct Hv.
      * destruct ap; [exfalso; apply Hp; eauto|]. by destruct Ha.
    + apply Habs.
  - intros q Hq. fold used2 in Hq.
    assert (q ∈ usedPorts st \/
            (is_Some vp /\ (q = fst a1 \/ q = fst a1 + 1)) \/
            (is_Some ap /\ (q = fst a2 \/ q = fst a2 + 1))) as [Hold|[[Hv' Hq']|[Ha' Hq']]].
    { assert (q ∈ used1 \/ (is_Some ap /\ (q = fst a2 \/ q = fst a2 + 1))) as [H1|H1].
      { destruct ap; [|destruct Ha as [_ Ha]; rewrite Ha in Hq; auto].
        destruct Ha as (_&_&Hu). apply Hu in Hq. destruct Hq as [?|[?|?]]; eauto. }
      - destruct vp; [|destruct Hv as [_ Hv]; rewrite Hv in H1; auto].
        destruct Hv as (_&_&Hu). apply Hu in H1. destruct H1 as [?|[?|?]]; eauto 6.
      - auto. }
    + destruct (Hown q Hold) as (sid0&s0&k&H0&Hp&Hqs).
      exists sid0, s0, k. rewrite lookup_insert_ne; [done|].
      intros ->. congruence.
    + exists sid, s, Video. rewrite lookup_insert_eq. split; [done|].
      unfold present, portOf. rewrite Hprods, Hports. done.
    + exists sid, s, Audio. rewrite lookup_insert_eq. split; [done|].
      unfold present, portOf. rewrite Hprods, Hports. done.
Qed.

Lemma PortsConsistent_start_try env st sid prods :
  PortsConsistent st ->
  PortsConsistent (snd (startTranscoding_try env st sid prods)).
Proof.
  intros Hpc.
  destruct (startTranscoding_try_shape env st sid prods)
    as [[-> _]|(Hnone&_&s&->&Hf)]; [done|].
  by eapply PortsConsistent_register.
Qed.

Lemma startTranscoding_state env st sid prods :
  stateAfter (startTranscoding env st sid prods)
  = match fst (startTranscoding_try env st sid prods) with
    | inl _ => snd (stopTranscoding (exitsInGrace env)
                      (snd (startTranscoding_try env st sid prods)) sid)
    | inr _ => snd (startTranscoding_try env st sid prods)
    end.
Proof.
  unfold startTranscoding.
  destruct (startTranscoding_try env st sid prods) as [[e|p] st1]; simpl; [|done].
  by destruct (stopTranscoding (exitsInGrace env) st1 sid).
Qed.

Lemma PortsConsistent_start env st sid prods :
  PortsConsistent st ->
  PortsConsistent (stateAfter (startTranscoding env st sid prods)).
Proof.
  intros Hpc. rewrite startTranscoding_state.
  pose proof (PortsConsistent_start_try env st sid prods Hpc).
  destruct (fst (startTranscoding_try env st sid prods)); [|done].
  by apply PortsConsistent_stop.
Qed.

Lemma cleanup_preserves (P : HLSState -> Prop) grace st :
  (forall g st0 sid, P st0 -> P (snd (stopTranscoding g st0 sid))) ->
  P st -> P (cleanup grace st).
Proof.
  intros Hstop Hst. unfold cleanup.
  induction (elements (dom (sessions st))) as [|sid l IH]; simpl; [done|].
  by apply Hstop.
Qed.

Lemma PortsConsistent_recover env st sid :
  PortsConsistent st -> PortsConsistent (snd (recoverSession env st sid)).
Proof.
  intros Hpc. unfold recoverSession.
  destruct (sessions st !! sid) as [s|] eqn:Hs; [|done].
  pose proof (recoverTracked_frame (config st) env s) as Hf.
  destruct (recoverTracked (config st) env s) as [ok s1]. simpl in *.
  by eapply (PortsConsistent_update st sid s s1).
Qed.

Lemma PortsConsistent_step st st' :
  step st st' -> PortsConsistent st -> PortsConsistent st'.
Proof.
  intros Hstep Hpc. destruct Hstep.
  - by apply PortsConsistent_start.
  - by apply PortsConsistent_stop.
  - apply cleanup_preserves; [|done]. intros. by apply PortsConsistent_stop.
  - by apply PortsConsistent_recover.
  - eapply PortsConsistent_update; eauto using deliverDatagram_frame.
  - eapply PortsConsistent_update; eauto using processExit_frame.
  - eapply PortsConsistent_update; eauto using restartFFmpeg_frame.
  - eapply PortsConsistent_update; eauto using onStderrData_frame.
  - eapply PortsConsistent_update; eauto using attemptSocketRecovery_frame.
Qed.

Lemma PortsConsistent_reachable cfg st :
  2 <= baseRtpPort cfg -> reachable cfg st -> PortsConsistent st.
Proof.
  intros Hbase Hreach. induction Hreach.
  - by apply PortsConsistent_init.
  - by eapply PortsConsistent_step.
Qed.

(** The configuration is fixed when the transcoder is created. *)
Lemma stopTranscoding_config grace st sid :
  config (snd (stopTranscoding grace st sid)) = config st.
Proof. unfold stopTranscoding. by destruct (sessions st !! sid). Qed.

Lemma startTranscoding_try_config env st sid prods :
  config (snd (startTranscoding_try env st sid prods)) = config st.
Proof.
  destruct (startTranscoding_try_shape env st sid prods)
    as [[-> _]|(_&_&s&->&_)]; [done|]. simpl.
  destruct (allocateFor_spec (findProducer Video prods) st) as (Hc1&_).
  destruct (allocateFor_spec (findProducer Audio prods)
              (snd (allocateFor (findProducer Video prods) st))) as (Hc2&_).
  congruence.
Qed.

Lemma step_config st st' : step st st' -> config st' = config st.
Proof.
  intros Hstep. destruct Hstep; try done.
  - rewrite startTranscoding_state.
    destruct (fst (startTranscoding_try env st sessionId prods));
      rewrite ?stopTranscoding_config; apply startTranscoding_try_config.
  - apply stopTranscoding_config.
  - apply (cleanup_preserves (fun st0 => config st0 = config st)); [|done].
    intros g st0 sid <-. apply stopTranscoding_config.
  - unfold recoverSession. destruct (sessions st !! sessionId); [|done].
    by destruct (recoverTracked _ _ _).
Qed.

Lemma reachable_config cfg st : reachable cfg st -> config st = cfg.
Proof.
  induction 1 as [|st st' _ IH Hstep]; [done|].
  by rewrite (step_config _ _ Hstep).
Qed.

(** ** Counters *)

Lemma statsGrow_refl s : statsGrow s s.
Proof. unfold statsGrow. lia. Qed.

Lemma statsGrow_eq s s' : stats s' = stats s -> statsGrow s s'.
Proof. unfold statsGrow. intros ->. lia. Qed.

Lemma forwardToStdin_stats data s : stats (fst (forwardToStdin data s)) = stats s.
Proof. unfold forwardToStdin. by repeat case_match. Qed.

Lemma onRtpMessage_stats tnow data s :
  stats (fst (onRtpMessage tnow data s))
  = mkStats (packetsReceived (stats s) + 1)
            (bytesReceived (stats s) + Z.of_nat (length data)) tnow.
Proof. unfold onRtpMessage. by rewrite forwardToStdin_stats. Qed.

Lemma deliverDatagram_statsGrow tnow k data s :
  statsGrow s (fst (deliverDatagram tnow k data s)).
Proof.
  unfold deliverDatagram, onRecoveredMessage.
  destruct (getKind k (rtpSockets s)) as [sock|]; [|apply statsGrow_refl].
  destruct (socketClosed sock); [apply statsGrow_refl|].
  destruct (messageHandler sock).
  - unfold statsGrow. rewrite onRtpMessage_stats. simpl. lia.
  - apply statsGrow_eq, forwardToStdin_stats.
Qed.

Lemma setupRtpReceiversWithForwarding_stats s :
  stats (setupRtpReceiversWithForwarding s) = stats s.
Proof.
  unfold setupRtpReceiversWithForwarding, setupRtpReceiver.
  by repeat case_match.
Qed.

Lemma attemptSocketRecovery_stats bound k s :
  stats (fst (attemptSocketRecovery bound k s)) = stats s.
Proof. unfold attemptSocketRecovery. by repeat case_match. Qed.

Lemma processExit_stats code signal s :
  stats (fst (processExit code signal s)) = stats s.
Proof. unfold processExit, onProcessExit. by repeat case_match. Qed.

Lemma restartFFmpeg_stats cfg spawn p s : stats (restartFFmpeg cfg spawn p s) = stats s.
Proof.
  unfold restartFFmpeg, startFFmpegProcess. destruct spawn; [|done].
  by rewrite setupRtpReceiversWithForwarding_stats.
Qed.

Lemma onStderrData_statsGrow tnow output s : statsGrow s (onStderrData tnow output s).
Proof.
  unfold onStderrData, statsGrow. repeat case_match; simpl; lia.
Qed.

Lemma recoverSocket_stats env k s s' : recoverSocket env k s = inr s' -> stats s' = stats s.
Proof.
  unfold recoverSocket. intros H. repeat case_match; simplify_eq; try done.
  apply attemptSocketRecovery_stats.
Qed.

Lemma reconnect_stats env k s s' : reconnect env k s = inr s' -> stats s' = stats s.
Proof. unfold reconnect. intros H. by repeat case_match; simplify_eq. Qed.

Lemma recoverTracked_stats cfg env s : stats (snd (recoverTracked cfg env s)) = stats s.
Proof.
  unfold recoverTracked.
  match goal with
  | |- context [match ?r with inl _ => (false, s) | inr _ => _ end] =>
      assert (forall s1, r = inr s1 -> stats s1 = stats s) as Hre;
      [|destruct r as [e|s1]; [done|]]
  end.
  { unfold startFFmpegProcess. intros s1 H. by repeat case_match; simplify_eq. }
  specialize (Hre s1 eq_refl).
  destruct (recoverSocket env Video s1) as [e|s2] eqn:H2; [done|].
  apply recoverSocket_stats in H2.
  destruct (recoverSocket env Audio s2) as [e|s3] eqn:H3; [simpl; congruence|].
  apply recoverSocket_stats in H3.
  destruct (reconnect env Video s3) as [e|s4] eqn:H4; [simpl; congruence|].
  apply reconnect_stats in H4.
  destruct (reconnect env Audio s4) as [e|s5] eqn:H5; [simpl; congruence|].
  apply reconnect_stats in H5. simpl. congruence.
Qed.

(** ** Sessions a call does not name *)

Lemma stopTranscoding_lookup grace st sid sid0 :
  sessions (snd (stopTranscoding grace st sid)) !! sid0
  = if decide (sid = sid0) then None else sessions st !! sid0.
Proof.
  unfold stopTranscoding. destruct (sessions st !! sid) eqn:Hs; simpl.
  - apply lookup_delete.
  - case_decide; congruence.
Qed.

Lemma stopTranscoding_removes grace st sid :
  sessions (snd (stopTranscoding grace st sid)) !! sid = None.
Proof. rewrite stopTranscoding_lookup. by case_decide. Qed.

Lemma startTranscoding_try_other env st sid prods sid0 :
  sid0 <> sid ->
  sessions (snd (startTranscoding_try env st sid prods)) !! sid0
  = sessions st !! sid0.
Proof.
  intros Hne.
  destruct (startTranscoding_try_shape env st sid prods)
    as [[-> _]|(_&_&s&->&(Hid&_))]; [done|].
  simpl in Hid. unfold putSession. simpl. rewrite Hid.
  rewrite lookup_insert_ne by done.
  destruct (allocateFor_spec (findProducer Video prods) st) as (_&Hs1&_).
  destruct (allocateFor_spec (findProducer Audio prods)
              (snd (allocateFor (findProducer Video prods) st))) as (_&Hs2&_).
  congruence.
Qed.

Lemma startTranscoding_other env st sid prods sid0 :
  sid0 <> sid ->
  sessions (stateAfter (startTranscoding env st sid prods)) !! sid0
  = sessions st !! sid0.
Proof.
  intros Hne. rewrite startTranscoding_state.
  destruct (fst (startTranscoding_try env st sid prods)).
  - rewrite stopTranscoding_lookup. case_decide; [congruence|].
    by apply startTranscoding_try_other.
  - by apply startTranscoding_try_other.
Qed.

Lemma startTranscoding_outcome env st sid prods :
  outcome (startTranscoding env st sid prods)
  = fst (startTranscoding_try env st sid prods).
Proof.
  unfold startTranscoding.
  destruct (startTranscoding_try env st sid prods) as [[e|p] st1]; simpl; [|done].
  by destruct (stopTranscoding (exitsInGrace env) st1 sid).
Qed.

(** A start on a tracked id is refused by line 104. *)
Lemma startTranscoding_try_duplicate env st sid prods s :
  sessions st !! sid = Some s ->
  startTranscoding_try env st sid prods = (inl (SessionExists sid), st).
Proof.
  intros Hs. unfold startTranscoding_try.
  rewrite bool_decide_eq_true_2; [done|]. rewrite Hs. eauto.
Qed.

(** After a start, the id is tracked exactly when the start succeeded, and
    then it names the freshly built session. *)
Lemma startTranscoding_tracked_after env st sid prods s :
  sessions (stateAfter (startTranscoding env st sid prods)) !! sid = Some s ->
  let a1 := allocateFor (findProducer Video prods) st in
  let a2 := allocateFor (findProducer Audio prods) (snd a1) in
  sessions st !! sid = None /\
  (exists p, outcome (startTranscoding env st sid prods) = inr p) /\
  stateAfter (startTranscoding env st sid prods) = putSession s (snd a2) /\
  sameFrame (newSession env (config st) sid (findProducer Video prods)
               (findProducer Audio prods) (fst a1) (fst a2)) s.
Proof.
  rewrite startTranscoding_state, startTranscoding_outcome. intros Hs a1 a2.
  destruct (fst (startTranscoding_try env st sid prods)) as [e|p] eqn:Hr.
  { by rewrite stopTranscoding_removes in Hs. }
  destruct (startTranscoding_try_shape env st sid prods)
    as [[_ [e He]]|(Hnone&_&s0&Hst&Hf)]; [congruence|].
  rewrite Hst in Hs |- *. unfold putSession in Hs. simpl in Hs.
  destruct Hf as (Hid&Hrest). simpl in Hid. rewrite Hid in Hs.
  rewrite lookup_insert_eq in Hs. simplify_eq.
  repeat split; eauto; apply Hrest.
Qed.

(** ** Duplicate start *)

Lemma afterS1_session :
  exists s, sessions afterS1 !! "s1" = Some s /\
    rtpPorts s = mkPerKind 20000 20002 /\ isActive s = true /\
    (exists p, process s = Some p /\ pid p = 7%nat /\ running p = true) /\
    usedPorts afterS1 = {[20000; 20001; 20002; 20003]}.
Proof.
  eexists. split; [vm_compute; reflexivity|].
  split; [reflexivity|]. split; [reflexivity|].
  split; [eexists; split; [reflexivity|]; split; reflexivity|].
  vm_compute. reflexivity.
Qed.

Lemma stopProcess_sigterm grace p :
  running p = true -> Kill (pid p) SIGTERM ∈ snd (stopProcess grace p).
Proof.
  intros Hrun. unfold stopProcess, kill.
  destruct (stdinDestroyed p); simpl; rewrite Hrun; simpl;
    destruct grace; simpl; rewrite ?elem_of_cons; auto.
Qed.

(** C1 (the code departs from the claim).  A start on an id that is already
    tracked is refused with the duplicate-session error, but the catch block
    then stops that very id: the session that was running is torn down, its
    process is sent SIGTERM, its ports are released and it leaves the
    registry. *)
Theorem duplicate_start_stops_existing env st sid prods s :
  sessions st !! sid = Some s ->
  outcome (startTranscoding env st sid prods) = inl (SessionExists sid) /\
  sessions (stateAfter (startTranscoding env st sid prods)) !! sid = None /\
  usedPorts (stateAfter (startTranscoding env st sid prods))
  = releasePorts (rtpPorts s) (usedPorts st) /\
  (forall p, process s = Some p -> running p = true ->
     Kill (pid p) SIGTERM ∈ cleanupEffects (startTranscoding env st sid prods)).
Proof.
  intros Hs. unfold startTranscoding.
  rewrite (startTranscoding_try_duplicate _ _ _ _ _ Hs).
  pose proof (stopTranscoding_tracked (exitsInGrace env) st sid s Hs) as Hst.
  destruct (stopTranscoding (exitsInGrace env) st sid) as [eff st2] eqn:Hstop.
  simpl in *. subst st2. simpl. rewrite lookup_delete_eq.
  repeat split. intros p Hp Hrun.
  unfold stopTranscoding in Hstop. rewrite Hs, Hp in Hstop.
  injection Hstop as <-.
  apply elem_of_app. right. by apply stopProcess_sigterm.
Qed.

Lemma duplicate_start_stops_existing_witness :
  exists s, sessions afterS1 !! "s1" = Some s /\
    rtpPorts s = mkPerKind 20000 20002 /\
    outcome (startTranscoding (calmEnv 2000 8) afterS1 "s1" [videoProducer1])
    = inl (SessionExists "s1") /\
    sessions (stateAfter (startTranscoding (calmEnv 2000 8) afterS1 "s1"
                            [videoProducer1])) !! "s1" = None /\
    usedPorts (stateAfter (startTranscoding (calmEnv 2000 8) afterS1 "s1"
                             [videoProducer1])) = ∅.
Proof.
  eexists. split; [vm_compute; reflexivity|]. split; [reflexivity|].
  match goal with
  | |- context [sessions (stateAfter (startTranscoding ?e ?st ?i ?ps))] =>
      destruct (duplicate_start_stops_existing e st i ps _
                  ltac:(vm_compute; reflexivity)) as (H1&H2&H3&_)
  end.
  split; [exact H1|]. split; [exact H2|].
  rewrite H3. vm_compute. reflexivity.
Defined.

(** ** Process exit *)

(** C2 (the code departs from the claim).  The 'exit' handler clears
    [isActive] before it tests it, so whatever the exit code and signal, no
    restart timer is ever set: the session is left inactive with the dead
    process. *)
Theorem exit_never_schedules_restart code signal s :
  snd (processExit code signal s) = None /\
  isActive (fst (processExit code signal s)) = false /\
  process (fst (processExit code signal s)) = processExited <$> process s.
Proof.
  unfold processExit, onProcessExit. simpl.
  rewrite andb_false_r. done.
Qed.

(** ** Port ownership *)







(** ** Reservation order *)

Lemma startTranscoding_success env st sid prods path :
  outcome (startTranscoding env st sid prods) = inr path ->
  let a1 := allocateFor (findProducer Video prods) st in
  let a2 := allocateFor (findProducer Audio prods) (snd a1) in
  exists s,
    sessions (stateAfter (startTranscoding env st sid prods)) !! sid = Some s /\
    stateAfter (startTranscoding env st sid prods) = putSession s (snd a2) /\
    sameFrame (newSession env (config st) sid (findProducer Video prods)
                 (findProducer Audio prods) (fst a1) (fst a2)) s.
Proof.
  rewrite startTranscoding_outcome, startTranscoding_state. intros Hr a1 a2.
  rewrite Hr.
  destruct (startTranscoding_try_shape env st sid prods)
    as [[_ [e He]]|(Hnone&_&s&Hst&Hf)]; [congruence|].
  exists s. rewrite Hst. repeat split; try apply Hf.
  unfold putSession. simpl. destruct Hf as (Hid&_). simpl in Hid.
  by rewrite Hid, lookup_insert_eq.
Qed.

Lemma allocatedPort_lowest st :
  Z.even (baseRtpPort (config st)) = true ->
  lowestUnusedEven (baseRtpPort (config st)) (usedPorts st) (allocatedPort st).
Proof.
  intros Heven. destruct (getAvailablePort_offset st) as (k&Hk&Hbelow).
  pose proof (getAvailablePort_fresh st) as Hfresh.
  repeat split; [| lia | done |].
  - rewrite Hk, Z.even_add_mul_2. done.
  - intros q Hq Hge Hfree.
    destruct (Z.le_gt_cases (allocatedPort st) q) as [|Hlt]; [done|exfalso].
    apply Z.even_spec in Hq as [m Hm]. apply Z.even_spec in Heven as [b Hb].
    apply Hfree.
    replace q with (baseRtpPort (config st) + 2 * Z.of_nat (Z.to_nat (m - b))) by lia.
    apply Hbelow. lia.
Qed.

Lemma allocatedPort_fresh_pool st :
  usedPorts st = ∅ -> allocatedPort st = baseRtpPort (config st).
Proof.
  intros Hempty. destruct (getAvailablePort_offset st) as ([|k]&Hk&Hbelow); [lia|].
  specialize (Hbelow 0%nat ltac:(lia)). rewrite Hempty in Hbelow.
  by apply not_elem_of_empty in Hbelow.
Qed.

(** C4, counterexample.  With the odd base 20001 the first reservation
    returns 20001, which is not an even port. *)
Lemma odd_base_reserves_odd_port :
  ~ lowestUnusedEven 20001 (usedPorts (createHLSTranscoder
                                         (withBasePort 20001 DEFAULT_HLS_CONFIG)))
      (allocatedPort (createHLSTranscoder (withBasePort 20001 DEFAULT_HLS_CONFIG))).
Proof. intros [Heven _]. vm_compute in Heven. discriminate. Qed.

(** C4, as amended.  When the configured base is even, a reservation
    returns the lowest even port at or above the base that is not in the
    used-port set, and marks that port and the next one as used.  On a fresh
    pool based at 20000 a session with both kinds gets 20000/20001 for video
    and 20002/20003 for audio, and every port of a session started right
    after it is at least 20004. *)
Theorem getAvailablePort_lowest_even st :
  Z.even (baseRtpPort (config st)) = true ->
  lowestUnusedEven (baseRtpPort (config st)) (usedPorts st) (allocatedPort st) /\
  (forall q, q ∈ usedPorts (snd (getAvailablePort st)) <->
             q = allocatedPort st \/ q = allocatedPort st + 1 \/ q ∈ usedPorts st) /\
  (baseRtpPort (config st) = 20000 -> sessions st = ∅ -> usedPorts st = ∅ ->
   forall env prods v a path,
     findProducer Video prods = Some v -> findProducer Audio prods = Some a ->
     outcome (startTranscoding env st "s1" prods) = inr path ->
     (exists s1, sessions (stateAfter (startTranscoding env st "s1" prods)) !! "s1"
                 = Some s1 /\ rtpPorts s1 = mkPerKind 20000 20002) /\
     usedPorts (stateAfter (startTranscoding env st "s1" prods))
     = {[20000; 20001; 20002; 20003]} /\
     forall env2 sid2 prods2 s2 k,
       sessions (stateAfter (startTranscoding env2
                   (stateAfter (startTranscoding env st "s1" prods)) sid2 prods2))
         !! sid2 = Some s2 ->
       present k s2 -> 20004 <= portOf k s2).
Proof.
  intros Heven. split; [by apply allocatedPort_lowest|].
  split; [apply getAvailablePort_reserves|].
  intros Hbase Hnone Hempty env prods v a path Hv Ha Hok.
  destruct (startTranscoding_success _ _ _ _ _ Hok) as (s1&Hs1&Hst&Hf).
  rewrite Hv, Ha in Hst, Hf. unfold allocateFor in Hst, Hf.
  fold (allocatedPort st) in Hf.
  fold (allocatedPort (snd (getAvailablePort st))) in Hf.
  assert (allocatedPort st = 20000) as Hp1.
  { rewrite allocatedPort_fresh_pool by done. done. }
  assert (usedPorts (snd (getAvailablePort st)) = {[20000; 20001]}) as Hu1.
  { apply set_eq. intros q. rewrite getAvailablePort_reserves, Hp1, Hempty.
    rewrite elem_of_union, !elem_of_singleton, elem_of_empty. lia. }
  assert (allocatedPort (snd (getAvailablePort st)) = 20002) as Hp2.
  { destruct (getAvailablePort_offset (snd (getAvailablePort st))) as (n&Hn&Hbelow).
    pose proof (getAvailablePort_fresh (snd (getAvailablePort st))) as Hfresh.
    change (config (snd (getAvailablePort st))) with (config st) in Hn, Hbelow.
    rewrite Hu1 in Hfresh, Hbelow. rewrite Hbase in Hn, Hbelow.
    destruct n as [|[|n]]; [| lia |].
    - exfalso. apply Hfresh. rewrite Hn.
      rewrite elem_of_union, !elem_of_singleton. lia.
    - exfalso. specialize (Hbelow 1%nat ltac:(lia)).
      rewrite elem_of_union, !elem_of_singleton in Hbelow. lia. }
  rewrite Hp1, Hp2 in Hf.
  assert (usedPorts (stateAfter (startTranscoding env st "s1" prods))
          = {[20000; 20001; 20002; 20003]}) as Hused.
  { rewrite Hst. unfold putSession, set_sessions. cbn [usedPorts].
    apply set_eq. intros q. rewrite getAvailablePort_reserves, Hp2, Hu1.
    rewrite !elem_of_union, !elem_of_singleton. lia. }
  split; [exists s1; split; [done|apply Hf]|]. split; [done|].
  intros env2 sid2 prods2 s2 k Hs2 Hpres.
  set (stA := stateAfter (startTranscoding env st "s1" prods)) in *.
  destruct (startTranscoding_tracked_after _ _ _ _ _ Hs2) as (Hnew&_&_&Hf2).
  assert (config stA = config st) as Hcfg.
  { subst stA. rewrite Hst. simpl. reflexivity. }
  destruct Hf2 as (_&Hports&Hprods&_). simpl in Hports, Hprods.
  unfold present, portOf in *. rewrite Hprods in Hpres. rewrite Hports.
  set (vp := findProducer Video prods2) in *.
  set (ap := findProducer Audio prods2) in *.
  destruct (allocateFor_spec vp stA) as (Hc1&_&Hva).
  destruct (allocateFor_spec ap (snd (allocateFor vp stA))) as (_&_&Haa).
  assert (forall q, q ∈ usedPorts stA -> q ∈ usedPorts (snd (allocateFor vp stA)))
    as Hmono.
  { intros q Hq. destruct vp; [apply Hva; auto|]. destruct Hva as [_ ->]. done. }
  rewrite Hc1 in Haa. rewrite Hcfg, Hbase in Hva, Haa. rewrite Hused in Hva, Hmono.
  assert (forall p (n : nat), p = 20000 + 2 * Z.of_nat n ->
            p ∉ ({[20000; 20001; 20002; 20003]} : gset Z) -> 20004 <= p) as Hlow.
  { intros p n -> Hnot. destruct n as [|[|n]]; [| |lia]; exfalso; apply Hnot;
      rewrite !elem_of_union, !elem_of_singleton; lia. }
  destruct k; simpl in *.
  - destruct vp; [|by destruct Hpres]. destruct Hva as (Hfree&[n Hn]&_).
    by eapply Hlow.
  - destruct ap; [|by destruct Hpres]. destruct Haa as (Hfree&[n Hn]&_).
    eapply Hlow; [done|]. intros Hin. apply Hfree. by apply Hmono.
Qed.

Lemma getAvailablePort_lowest_even_witness :
  Z.even (baseRtpPort (config freshDefault)) = true /\
  lowestUnusedEven 20000 ∅ (allocatedPort freshDefault) /\
  allocatedPort afterS1 = 20004.
Proof.
  split; [reflexivity|].
  split; [apply (getAvailablePort_lowest_even freshDefault); reflexivity|].
  vm_compute. reflexivity.
Defined.

(** ** Stop *)

(** C5.  Stopping a tracked session removes it from the registry and leaves
    none of its four ports (data port and data port + 1, video and audio) in
    the used-port set, whether the process exits within the grace period or
    the 5000 ms timer fires. *)
Theorem stopTranscoding_releases grace st sid s :
  sessions st !! sid = Some s ->
  sessions (snd (stopTranscoding grace st sid)) !! sid = None /\
  forall k, (portOf k s ∉ usedPorts (snd (stopTranscoding grace st sid))) /\
            (portOf k s + 1 ∉ usedPorts (snd (stopTranscoding grace st sid))).
Proof.
  intros Hs. split; [apply stopTranscoding_removes|].
  rewrite (stopTranscoding_tracked _ _ _ _ Hs). simpl.
  intros k. rewrite !elem_of_releasePorts.
  destruct k; unfold portOf; simpl; split; intros (_&?&?&?&?); lia.
Qed.

Lemma stopTranscoding_releases_witness :
  exists s, sessions afterS1 !! "s1" = Some s /\
    sessions (snd (stopTranscoding false afterS1 "s1")) !! "s1" = None /\
    forall k, (portOf k s ∉ usedPorts (snd (stopTranscoding false afterS1 "s1"))) /\
              (portOf k s + 1 ∉ usedPorts (snd (stopTranscoding false afterS1 "s1"))).
Proof.
  eexists. split; [vm_compute; reflexivity|].
  apply (stopTranscoding_releases false afterS1 "s1"). vm_compute. reflexivity.
Defined.

(** ** Ingest *)

(** C6, counterexample.  Once the process of "s1" has exited its stdin is
    destroyed; a datagram on the video socket is still counted, but line 198
    skips the write. *)
Lemma datagram_not_forwarded_after_exit :
  exists s, sessions afterS1Exit !! "s1" = Some s /\
    (exists sock, video (rtpSockets s) = Some sock /\
                  messageHandler sock = StatsAndForward /\
                  socketClosed sock = false) /\
    ~ countedAndForwarded 5000 samplePacket s
        (fst (deliverDatagram 5000 Video samplePacket s)).
Proof.
  eexists. split; [vm_compute; reflexivity|].
  split; [eexists; repeat split|].
  intros (_&_&_&p&p'&Hp&Hp'&Hw).
  vm_compute in Hp, Hp'. injection Hp as <-. injection Hp' as <-.
  vm_compute in Hw. discriminate.
Qed.

(** C6, as amended.  On a socket set up by
    [setupRtpReceiversWithForwarding], every datagram adds 1 to
    [packetsReceived] and its length to [bytesReceived] and sets the
    last-packet time; when the session has a process whose stdin is not
    destroyed, the bytes are then written to that stdin unchanged, and
    otherwise nothing is written. *)
Theorem datagram_counted_and_forwarded tnow k rtpPacket s sock :
  getKind k (rtpSockets s) = Some sock ->
  socketClosed sock = false ->
  messageHandler sock = StatsAndForward ->
  stats (fst (deliverDatagram tnow k rtpPacket s))
  = mkStats (packetsReceived (stats s) + 1)
            (bytesReceived (stats s) + Z.of_nat (length rtpPacket)) tnow /\
  (forall p, process s = Some p -> stdinDestroyed p = false ->
     process (fst (deliverDatagram tnow k rtpPacket s))
     = Some (stdinWrite rtpPacket p) /\
     snd (deliverDatagram tnow k rtpPacket s) = [StdinWrite (pid p) rtpPacket]) /\
  ((process s = None \/ exists p, process s = Some p /\ stdinDestroyed p = true) ->
     process (fst (deliverDatagram tnow k rtpPacket s)) = process s /\
     snd (deliverDatagram tnow k rtpPacket s) = []).
Proof.
  intros Hsock Hopen Hhandler. unfold deliverDatagram.
  rewrite Hsock, Hopen, Hhandler.
  split; [apply onRtpMessage_stats|].
  unfold onRtpMessage, forwardToStdin. simpl. split.
  - intros p Hp Hlive. by rewrite Hp, Hlive.
  - intros [Hnone|(p&Hp&Hdead)].
    + by rewrite Hnone.
    + by rewrite Hp, Hdead.
Qed.

Lemma datagram_counted_and_forwarded_witness :
  exists s, sessions afterS1 !! "s1" = Some s /\
    stats (fst (deliverDatagram 5000 Video samplePacket s)) = mkStats 1 4 5000 /\
    snd (deliverDatagram 5000 Video samplePacket s) = [StdinWrite 7 samplePacket].
Proof.
  eexists. split; [vm_compute; reflexivity|].
  match goal with
  | |- context [deliverDatagram ?t ?k ?pkt ?s] =>
      destruct (datagram_counted_and_forwarded t k pkt s
                  (mkSocket 20000 StatsAndForward false)
                  eq_refl eq_refl eq_refl) as (Hstats&Hfwd&_);
      destruct (Hfwd (mkChildProcess 7
                        (ffmpegArgs DEFAULT_HLS_CONFIG
                           (newSession (calmEnv 1000 7) DEFAULT_HLS_CONFIG "s1"
                              (Some videoProducer1) (Some audioProducer1)
                              20000 20002)
                           (playlistPathOf DEFAULT_HLS_CONFIG "s1"))
                        true false false false [])
                  ltac:(vm_compute; reflexivity) eq_refl) as (_&Heff)
  end.
  split; [exact Hstats|exact Heff].
Defined.

(** Every socket [setupRtpReceiversWithForwarding] opens carries that
    handler. *)
Lemma setupRtpReceiver_handler k s sock :
  getKind k (rtpSockets s) = None ->
  getKind k (rtpSockets (setupRtpReceiversWithForwarding s)) = Some sock ->
  messageHandler sock = StatsAndForward /\ socketClosed sock = false /\
  boundPort sock = getKind k (rtpPorts s).
Proof.
  unfold setupRtpReceiversWithForwarding, setupRtpReceiver.
  intros Hnone Hsome.
  destruct k; simpl in *; repeat (case_match; simpl in *); simplify_eq; done.
Qed.

(** ** Stream synchronizer *)

(** C7 (the code departs from the claim).  The interval callback tests
    [packetsReceived > 10]: with exactly 10 packets since the check began,
    and the timeout not yet exceeded, the promise stays pending; it takes an
    eleventh packet to resolve early. *)
Theorem ten_packets_do_not_resolve tstart timeoutMs tnow s :
  tnow - tstart <= timeoutMs ->
  waitForRtpFlow tstart s timeoutMs [(tnow, packetsReceived (stats s) + 10)]
  = Pending /\
  waitForRtpFlow tstart s timeoutMs [(tnow, packetsReceived (stats s) + 11)]
  = Resolved (FlowDetected 11 (tnow - tstart)).
Proof.
  intros Hearly. unfold waitForRtpFlow. simpl.
  replace (packetsReceived (stats s) + 10 - packetsReceived (stats s)) with 10 by lia.
  replace (packetsReceived (stats s) + 11 - packetsReceived (stats s)) with 11 by lia.
  simpl. split; [|done].
  destruct (timeoutMs <? tnow - tstart) eqn:E; [|done].
  apply Z.ltb_lt in E. lia.
Qed.

Lemma ten_packets_do_not_resolve_witness :
  waitForRtpFlow 0 (newSession (calmEnv 0 1) DEFAULT_HLS_CONFIG "s1"
                      (Some videoProducer1) (Some audioProducer1) 20000 20002)
    3000 [(100, 0 + 10)] = Pending.
Proof.
  apply (ten_packets_do_not_resolve 0 3000 100
           (newSession (calmEnv 0 1) DEFAULT_HLS_CONFIG "s1"
              (Some videoProducer1) (Some audioProducer1) 20000 20002)).
  vm_compute. discriminate.
Defined.

(** ** Counters never go down *)

(** C8.  Across any transition of the transcoder, a session that is tracked
    before and after it has neither [packetsReceived] nor [bytesReceived]
    decreased. *)
Theorem counters_never_decrease st st' sid s s' :
  step st st' ->
  sessions st !! sid = Some s -> sessions st' !! sid = Some s' ->
  packetsReceived (stats s) <= packetsReceived (stats s') /\
  bytesReceived (stats s) <= bytesReceived (stats s').
Proof.
  intros Hstep Hs Hs'. change (statsGrow s s').
  assert (forall sid0 t t' (u : HLSState),
            sessions u !! sid0 = Some t ->
            sessions (updateSession sid0 t' u) !! sid = Some s' ->
            sessions u !! sid = Some s ->
            statsGrow t t' -> statsGrow s s') as Hupd.
  { intros sid0 t t' u Ht. unfold updateSession. simpl.
    rewrite lookup_insert. case_decide; intros; simplify_eq;
      [done|apply statsGrow_refl]. }
  destruct Hstep.
  - destruct (decide (sid = sessionId)) as [->|Hne].
    + apply startTranscoding_tracked_after in Hs' as (Hnone&_). congruence.
    + rewrite startTranscoding_other in Hs' by done. simplify_eq.
      apply statsGrow_refl.
  - rewrite stopTranscoding_lookup in Hs'. case_decide; simplify_eq.
    apply statsGrow_refl.
  - assert (sessions (cleanup grace st) !! sid = None \/
            sessions (cleanup grace st) !! sid = sessions st !! sid) as [H|H].
    { apply (cleanup_preserves
               (fun u => sessions u !! sid = None \/
                         sessions u !! sid = sessions st !! sid)); [|by right].
      intros g u sid0 Hu. rewrite stopTranscoding_lookup. case_decide; auto. }
    + congruence.
    + rewrite H in Hs'. simplify_eq. apply statsGrow_refl.
  - unfold recoverSession in Hs'.
    destruct (sessions st !! sessionId) as [t|] eqn:Ht;
      [|simpl in Hs'; simplify_eq; apply statsGrow_refl].
    pose proof (recoverTracked_stats (config st) env t) as Hst.
    destruct (recoverTracked (config st) env t) as [ok t']. simpl in *.
    eapply (Hupd sessionId t t' st); eauto using statsGrow_eq.
  - eapply (Hupd sessionId session _ st); eauto using deliverDatagram_statsGrow.
  - eapply (Hupd sessionId session _ st);
      eauto using statsGrow_eq, processExit_stats.
  - eapply (Hupd sessionId session _ st);
      eauto using statsGrow_eq, restartFFmpeg_stats.
  - eapply (Hupd sessionId session _ st); eauto using onStderrData_statsGrow.
  - eapply (Hupd sessionId session _ st);
      eauto using statsGrow_eq, attemptSocketRecovery_stats.
Qed.

Lemma counters_never_decrease_witness :
  exists s s', sessions afterS1 !! "s1" = Some s /\
    sessions (updateSession "s1" (fst (deliverDatagram 5000 Video samplePacket s))
                afterS1) !! "s1" = Some s' /\
    packetsReceived (stats s) <= packetsReceived (stats s') /\
    bytesReceived (stats s) <= bytesReceived (stats s').
Proof.
  do 2 eexists. split; [vm_compute; reflexivity|].
  split; [vm_compute; reflexivity|].
  eapply (counters_never_decrease afterS1 _ "s1").
  - eapply (step_datagram 5000 Video samplePacket afterS1 "s1").
    vm_compute. reflexivity.
  - vm_compute. reflexivity.
  - vm_compute. reflexivity.
Defined.

(** ** Start without producers *)



(** ** Adaptive bitrate *)

(** C9 (the code departs from the claim).  For "s1" with the default
    configuration the three tier sessions write their manifests to
    hls-output/s1_720p, s1_480p and s1_360p, while the master playlist, at
    hls-output/s1/master.m3u8, lists 720p/playlist.m3u8 and so on: no entry
    names the manifest of its tier.  The directory hls-output/s1 is never
    created either, so on an empty output tree the write of the master
    playlist fails and the call rejects after the three sessions started. *)
Theorem master_playlist_misses_tier_manifests :
  (exists run, adaptiveS1 preparedFs = inr run /\
     playlistUrls run = [ ["hls-output"; "s1_720p"; "playlist.m3u8"];
                          ["hls-output"; "s1_480p"; "playlist.m3u8"];
                          ["hls-output"; "s1_360p"; "playlist.m3u8"] ] /\
     files (fileSystem run) !! masterPlaylistPath DEFAULT_HLS_CONFIG "s1"
     = Some (masterContent qualities) /\
     resolveUri (masterPlaylistPath DEFAULT_HLS_CONFIG "s1") <$> (uriOf <$> qualities)
     = [ ["hls-output"; "s1"; "720p"; "playlist.m3u8"];
         ["hls-output"; "s1"; "480p"; "playlist.m3u8"];
         ["hls-output"; "s1"; "360p"; "playlist.m3u8"] ] /\
     Forall2 (fun q url =>
                ~ pointsAt (masterPlaylistPath DEFAULT_HLS_CONFIG "s1") q url)
       qualities (playlistUrls run)) /\
  adaptiveS1 emptyFs = inl (WriteError ["hls-output"; "s1"; "master.m3u8"]).
Proof.
  split; [|vm_compute; reflexivity].
  eexists. split; [vm_compute; reflexivity|].
  split; [reflexivity|]. split; [vm_compute; reflexivity|].
  split; [vm_compute; reflexivity|].
  repeat constructor; intros H; vm_compute in H; discriminate.
Qed.

(** * Further properties of the code *)

(** ** Port allocator, any base *)


(** ** Stream synchronizer *)

Lemma pollRtpFlow_never_rejects tstart initial timeoutMs ticks e :
  pollRtpFlow tstart initial timeoutMs ticks <> Rejected e.
Proof.
  induction ticks as [|[tnow count] ticks IH]; simpl; [done|].
  repeat case_match; done.
Qed.

(** Whatever the interval callback observes, [waitForRtpFlow] and
    [synchronizeStreams] are never rejected: a synchronisation timeout
    cannot fail a start. *)
Theorem waitForRtpFlow_never_rejects tstart s timeoutMs ticks e :
  waitForRtpFlow tstart s timeoutMs ticks <> Rejected e /\
  synchronizeStreams tstart s ticks <> Rejected e.
Proof.
  split; [apply pollRtpFlow_never_rejects|].
  unfold synchronizeStreams, waitForRtpFlow.
  repeat case_match; try done;
    match goal with
    | H : pollRtpFlow _ _ _ _ = Rejected _ |- _ =>
        by apply pollRtpFlow_never_rejects in H
    end.
Qed.

(** Once the interval callback has fired at a time more than [timeoutMs]
    after the call, the promise is resolved, whether or not packets came. *)
Theorem waitForRtpFlow_resolves tstart s timeoutMs ticks tnow count :
  (tnow, count) ∈ ticks -> timeoutMs < tnow - tstart ->
  exists o, waitForRtpFlow tstart s timeoutMs ticks = Resolved o.
Proof.
  unfold waitForRtpFlow. intros Hin Hlate.
  induction ticks as [|[t c] ticks IH]; [by apply elem_of_nil in Hin|].
  simpl. destruct (10 <? c - packetsReceived (stats s)); [eauto|].
  destruct (timeoutMs <? t - tstart) eqn:E; [eauto|].
  apply elem_of_cons in Hin as [Heq|Hin]; [|by apply IH].
  simplify_eq. apply Z.ltb_ge in E. lia.
Qed.

Lemma waitForRtpFlow_resolves_witness :
  exists o,
    waitForRtpFlow 0 (newSession (calmEnv 0 1) DEFAULT_HLS_CONFIG "s1"
                        (Some videoProducer1) None 20000 0)
      2000 [(100, 0); (1000, 3); (2100, 3)] = Resolved o.
Proof.
  apply (waitForRtpFlow_resolves 0 _ 2000 _ 2100 3).
  - rewrite !elem_of_cons. right. right. left. reflexivity.
  - vm_compute. reflexivity.
Defined.

(** ** Socket recovery *)

(** After [attemptSocketRecovery] has bound a replacement socket for kind
    [k] of an active session, a datagram on that kind is written to a live
    stdin but moves no counter and no timestamp. *)
Theorem recovered_socket_is_not_counted k tnow rtpPacket s :
  isActive s = true ->
  let s1 := fst (attemptSocketRecovery true k s) in
  getKind k (rtpSockets s1)
  = Some (mkSocket (getKind k (rtpPorts s)) ForwardOnly false) /\
  stats (fst (deliverDatagram tnow k rtpPacket s1)) = stats s /\
  (forall p, process s = Some p -> stdinDestroyed p = false ->
     snd (deliverDatagram tnow k rtpPacket s1) = [StdinWrite (pid p) rtpPacket]).
Proof.
  intros Hactive s1. subst s1. unfold attemptSocketRecovery. rewrite Hactive.
  simpl. unfold deliverDatagram.
  assert (forall (x : option Socket) (m : PerKind (option Socket)),
            getKind k (setKind k x m) = x) as Hget by (by destruct k).
  simpl. rewrite Hget. simpl. split; [done|]. unfold onRecoveredMessage.
  split; [by rewrite forwardToStdin_stats|].
  intros p Hp Hlive. unfold forwardToStdin. simpl. by rewrite Hp, Hlive.
Qed.

Lemma recovered_socket_is_not_counted_witness :
  exists s, sessions afterS1 !! "s1" = Some s /\
    stats (fst (deliverDatagram 5000 Video samplePacket
                  (fst (attemptSocketRecovery true Video s)))) = mkStats 0 0 0.
Proof.
  eexists. split; [vm_compute; reflexivity|].
  match goal with
  | |- context [attemptSocketRecovery true ?k ?s] =>
      destruct (recovered_socket_is_not_counted k 5000 samplePacket s
                  ltac:(reflexivity)) as (_&Hstats&_)
  end.
  exact Hstats.
Defined.

(** ** Stop, cleanup and rollback *)

(** Stopping an id twice: the second call finds nothing, warns, and leaves
    the state as the first call left it. *)
Theorem stopTranscoding_twice g1 g2 st sid :
  stopTranscoding g2 (snd (stopTranscoding g1 st sid)) sid
  = ([WarnSessionNotFound sid], snd (stopTranscoding g1 st sid)).
Proof. apply stopTranscoding_unknown, stopTranscoding_removes. Qed.

(** [stopTranscoding] never delivers SIGKILL: after a SIGTERM that reached
    the process [killed] is set, so the timer of line 692 skips its branch,
    and a process that SIGTERM could not reach is not alive to be killed. *)
Theorem stopProcess_never_sigkill grace p n :
  Kill n SIGKILL ∉ snd (stopProcess grace p).
Proof.
  destruct p as [q args run kil destroyed ended written].
  unfold stopProcess, kill.
  destruct destroyed, run, grace, kil; simpl;
    rewrite ?elem_of_cons, ?elem_of_nil; intros H;
    repeat (destruct H as [H|H]); try discriminate; done.
Qed.

Lemma cleanup_lookup grace st l sid :
  sessions (foldr (fun sessionId acc =>
                     snd (stopTranscoding (grace sessionId) acc sessionId)) st l)
    !! sid
  = if decide (sid ∈ l) then None else sessions st !! sid.
Proof.
  induction l as [|x l IH]; cbn [foldr].
  - destruct (decide (sid ∈ [])) as [H|H]; [by apply elem_of_nil in H|done].
  - rewrite stopTranscoding_lookup, IH.
    destruct (decide (sid ∈ x :: l)) as [Hc|Hc].
    + destruct (decide (x = sid)); [done|].
      destruct (decide (sid ∈ l)); [done|].
      exfalso. apply elem_of_cons in Hc as [?|?]; congruence.
    + destruct (decide (x = sid)) as [->|?].
      { exfalso. apply Hc, elem_of_cons. auto. }
      destruct (decide (sid ∈ l)); [|done].
      exfalso. apply Hc, elem_of_cons. auto.
Qed.

Lemma PortsConsistent_used st1 st2 :
  PortsConsistent st1 -> PortsConsistent st2 ->
  sessions st1 = sessions st2 -> usedPorts st1 = usedPorts st2.
Proof.
  intros H1 H2 Heq. apply set_eq. intros q. split; intros Hq.
  - destruct (pc_owned _ H1 q Hq) as (sid&s&k&Hs&Hp&Hqs).
    rewrite Heq in Hs. destruct (pc_reserved _ H2 _ _ _ Hs Hp) as (_&?&?).
    by destruct Hqs as [->| ->].
  - destruct (pc_owned _ H2 q Hq) as (sid&s&k&Hs&Hp&Hqs).
    rewrite <- Heq in Hs. destruct (pc_reserved _ H1 _ _ _ Hs Hp) as (_&?&?).
    by destruct Hqs as [->| ->].
Qed.

(** [cleanup] leaves no session tracked, and in a reachable state of a
    transcoder based at port 2 or above it leaves no port reserved. *)
Theorem cleanup_empties cfg grace st :
  2 <= baseRtpPort cfg -> reachable cfg st ->
  sessions (cleanup grace st) = ∅ /\ usedPorts (cleanup grace st) = ∅.
Proof.
  intros Hbase Hreach.
  assert (sessions (cleanup grace st) = ∅) as Hempty.
  { apply map_eq. intros sid. unfold cleanup. rewrite cleanup_lookup, lookup_empty.
    case_decide as Hin; [done|].
    destruct (sessions st !! sid) eqn:Hs; [|done]. exfalso. apply Hin.
    apply elem_of_elements, elem_of_dom. eauto. }
  split; [done|].
  assert (PortsConsistent (cleanup grace st)) as Hpc.
  { apply cleanup_preserves; [intros; by apply PortsConsistent_stop|].
    by eapply PortsConsistent_reachable. }
  apply set_eq. intros q. split; [|by intros ?%not_elem_of_empty].
  intros Hq. destruct (pc_owned _ Hpc q Hq) as (sid&s&k&Hs&_).
  rewrite Hempty, lookup_empty in Hs. done.
Qed.

Lemma cleanup_empties_witness :
  2 <= baseRtpPort DEFAULT_HLS_CONFIG /\
  sessions (cleanup (fun _ => false) afterS1) = ∅ /\
  usedPorts (cleanup (fun _ => false) afterS1) = ∅.
Proof.
  split; [vm_compute; discriminate|].
  apply (cleanup_empties DEFAULT_HLS_CONFIG (fun _ => false) afterS1).
  - vm_compute. discriminate.
  - eapply reachable_step; [apply reachable_init|apply step_start].
Defined.



(** Stopping one session leaves every other session tracked, unchanged,
    and with both ports of each of its kinds still reserved. *)
Theorem stopTranscoding_isolated cfg grace st sid sid2 s2 k :
  2 <= baseRtpPort cfg -> reachable cfg st ->
  sessions st !! sid2 = Some s2 -> sid2 <> sid -> present k s2 ->
  sessions (snd (stopTranscoding grace st sid)) !! sid2 = Some s2 /\
  portOf k s2 ∈ usedPorts (snd (stopTranscoding grace st sid)) /\
  portOf k s2 + 1 ∈ usedPorts (snd (stopTranscoding grace st sid)).
Proof.
  intros Hbase Hreach Hs2 Hne Hp.
  pose proof (PortsConsistent_reachable cfg st Hbase Hreach) as Hpc.
  pose proof (PortsConsistent_stop grace st sid Hpc) as Hpc'.
  assert (sessions (snd (stopTranscoding grace st sid)) !! sid2 = Some s2) as Hs2'.
  { rewrite stopTranscoding_lookup. case_decide; [congruence|done]. }
  split; [done|]. by destruct (pc_reserved _ Hpc' _ _ _ Hs2' Hp) as (_&?&?).
Qed.

(** A start that fails, for whatever reason, on an id that was not tracked
    rolls everything back: the state after the call is the state before. *)
Theorem failed_start_rolls_back cfg env st sid prods e :
  2 <= baseRtpPort cfg -> reachable cfg st ->
  sessions st !! sid = None ->
  outcome (startTranscoding env st sid prods) = inl e ->
  stateAfter (startTranscoding env st sid prods) = st.
Proof.
  intros Hbase Hreach Hnone Hfail.
  pose proof (PortsConsistent_reachable cfg st Hbase Hreach) as Hpc.
  pose proof (PortsConsistent_start env st sid prods Hpc) as Hpc'.
  assert (sessions (stateAfter (startTranscoding env st sid prods)) = sessions st)
    as Hsess.
  { apply map_eq. intros sid0. destruct (decide (sid0 = sid)) as [->|Hne].
    - rewrite Hnone. rewrite startTranscoding_state.
      rewrite startTranscoding_outcome in Hfail. rewrite Hfail.
      apply stopTranscoding_removes.
    - by apply startTranscoding_other. }
  pose proof (PortsConsistent_used _ _ Hpc' Hpc Hsess) as Hused.
  assert (config (stateAfter (startTranscoding env st sid prods)) = config st)
    as Hcfg by (apply step_config, step_start).
  destruct (stateAfter (startTranscoding env st sid prods)), st.
  simpl in *. congruence.
Qed.

Lemma stopTranscoding_isolated_witness :
  exists s1, sessions afterS2 !! "s1" = Some s1 /\
    sessions (snd (stopTranscoding true afterS2 "s2")) !! "s1" = Some s1 /\
    portOf Audio s1 ∈ usedPorts (snd (stopTranscoding true afterS2 "s2")) /\
    portOf Audio s1 + 1 ∈ usedPorts (snd (stopTranscoding true afterS2 "s2")).
Proof.
  eexists. split; [vm_compute; reflexivity|].
  apply (stopTranscoding_isolated DEFAULT_HLS_CONFIG true afterS2 "s2" "s1" _ Audio).
  - vm_compute. discriminate.
  - unfold afterS2, afterS1.
    repeat (eapply reachable_step; [|apply step_start]). apply reachable_init.
  - vm_compute. reflexivity.
  - discriminate.
  - eexists. reflexivity.
Defined.

Lemma failed_start_rolls_back_witness :
  outcome (startTranscoding noSpawnEnv afterS1 "s2" [videoProducer1]) = inl SpawnError /\
  stateAfter (startTranscoding noSpawnEnv afterS1 "s2" [videoProducer1]) = afterS1.
Proof.
  split; [vm_compute; reflexivity|].
  apply (failed_start_rolls_back DEFAULT_HLS_CONFIG noSpawnEnv afterS1 "s2"
           [videoProducer1] SpawnError).
  - vm_compute. discriminate.
  - eapply reachable_step; [apply reachable_init|apply step_start].
  - vm_compute. reflexivity.
  - vm_compute. reflexivity.
Defined.

(** ** What a successful start leaves behind *)





(** ** Datagrams in arrival order *)

Lemma deliverDatagram_live tnow k rtpPacket s sock p :
  getKind k (rtpSockets s) = Some sock -> socketClosed sock = false ->
  messageHandler sock = StatsAndForward ->
  process s = Some p -> stdinDestroyed p = false ->
  fst (deliverDatagram tnow k rtpPacket s)
  = set_process (Some (stdinWrite rtpPacket p))
      (set_stats (mkStats (packetsReceived (stats s) + 1)
                          (bytesReceived (stats s) + Z.of_nat (length rtpPacket))
                          tnow) s).
Proof.
  intros Hsock Hopen Hh Hp Hlive. unfold deliverDatagram.
  rewrite Hsock, Hopen, Hh. unfold onRtpMessage, forwardToStdin. simpl.
  by rewrite Hp, Hlive.
Qed.

(** Datagrams that arrive one after the other on a socket of
    [setupRtpReceiversWithForwarding], while stdin stays writable, reach
    stdin in arrival order, one write each; the packet counter grows by
    their number and the byte counter by their total length. *)
Theorem datagrams_reach_stdin_in_order tnow k packets s sock p :
  getKind k (rtpSockets s) = Some sock -> socketClosed sock = false ->
  messageHandler sock = StatsAndForward ->
  process s = Some p -> stdinDestroyed p = false ->
  (exists p', process (deliverAll tnow k packets s) = Some p' /\
     stdinWritten p' = stdinWritten p ++ packets /\ pid p' = pid p) /\
  packetsReceived (stats (deliverAll tnow k packets s))
  = packetsReceived (stats s) + Z.of_nat (length packets) /\
  bytesReceived (stats (deliverAll tnow k packets s))
  = bytesReceived (stats s) + Z.of_nat (length (concat packets)).
Proof.
  revert s p. unfold deliverAll.
  induction packets as [|d packets IH]; intros s p Hsock Hopen Hh Hp Hlive.
  - simpl. split; [exists p; by rewrite app_nil_r|]. lia.
  - cbn [foldl].
    rewrite (deliverDatagram_live tnow k d s sock p) by done.
    match goal with
    | |- context [foldl _ ?s1 packets] =>
        destruct (IH s1 (stdinWrite d p)) as ((p'&Hp'&Hw&Hpid)&Hpk&Hby);
        try done
    end.
    split.
    + exists p'. split; [done|]. split; [|done].
      rewrite Hw. simpl. by rewrite <- app_assoc.
    + rewrite Hpk, Hby. simpl. rewrite length_app. lia.
Qed.

Lemma datagrams_reach_stdin_in_order_witness :
  exists s, sessions afterS1 !! "s1" = Some s /\
    packetsReceived (stats (deliverAll 5000 Audio [samplePacket; [x01]; []] s)) = 3 /\
    bytesReceived (stats (deliverAll 5000 Audio [samplePacket; [x01]; []] s)) = 5.
Proof.
  eexists. split; [vm_compute; reflexivity|].
  match goal with
  | |- context [deliverAll ?t ?k ?l ?s] =>
      destruct (datagrams_reach_stdin_in_order t k l s
                  (mkSocket 20002 StatsAndForward false)
                  (mkChildProcess 7
                     (ffmpegArgs DEFAULT_HLS_CONFIG
                        (newSession (calmEnv 1000 7) DEFAULT_HLS_CONFIG "s1"
                           (Some videoProducer1) (Some audioProducer1) 20000 20002)
                        (playlistPathOf DEFAULT_HLS_CONFIG "s1"))
                     true false false false [])
                  eq_refl eq_refl eq_refl ltac:(vm_compute; reflexivity) eq_refl)
        as (_&Hpk&Hby)
  end.
  split; [exact Hpk|exact Hby].
Defined.

(** ** Batched forwarding *)

Lemma forwardToStdin_writable data s :
  stdinWritable s ->
  stdinWritable (fst (forwardToStdin data s)) /\
  stdinBytes (fst (forwardToStdin data s)) = stdinBytes s ++ data.
Proof.
  intros (p&Hp&Hlive). unfold forwardToStdin, stdinWritable, stdinBytes.
  rewrite Hp, Hlive. simpl. split; [eauto|].
  rewrite concat_app. simpl. by rewrite app_nil_r.
Qed.

Lemma flushBatch_conserves b s :
  stdinWritable s ->
  let '(b', s', _) := flushBatch b s in
  stdinWritable s' /\ heldPackets b' = [] /\
  (heldPackets b <> [] -> timerArmed b' = false) /\
  stdinBytes s' = stdinBytes s ++ concat (heldPackets b).
Proof.
  intros Hw. unfold flushBatch.
  destruct (heldPackets b) as [|d rest] eqn:Hheld.
  - rewrite Hheld. simpl. rewrite app_nil_r. done.
  - pose proof (forwardToStdin_writable (concat (d :: rest)) s Hw) as [Hw' Hb].
    destruct (forwardToStdin (concat (d :: rest)) s) as [s1 eff]. simpl in *.
    done.
Qed.

Lemma batchStep_conserves ev b s :
  batcherOk b -> stdinWritable s ->
  batcherOk (fst (batchStep ev b s)) /\ stdinWritable (snd (batchStep ev b s)) /\
  stdinBytes (snd (batchStep ev b s)) ++ concat (heldPackets (fst (batchStep ev b s)))
  = stdinBytes s ++ concat (heldPackets b) ++ concat (pushedPackets [ev]).
Proof.
  intros [Hlen Harm] Hw. destruct ev as [d|]; simpl.
  - unfold batchedForward. simpl. case_bool_decide as Hfull.
    + pose proof (flushBatch_conserves
                    (mkBatcher (heldPackets b ++ [d]) false) s Hw) as Hf.
      destruct (flushBatch _ s) as [[b' s'] eff]. simpl in *.
      destruct Hf as (Hw'&Hheld&Harm'&Hbytes).
      split; [|split; [done|]].
      * split; [rewrite Hheld; unfold BATCH_SIZE; simpl; lia|].
        rewrite Hheld. split; [|done]. intros Ht.
        rewrite Harm' in Ht; [done|]. by destruct (heldPackets b).
      * rewrite Hheld, Hbytes, concat_app. simpl. by rewrite !app_nil_r.
    + assert (batcherOk (mkBatcher (heldPackets b ++ [d]) true)) as Hok.
      { split; simpl; [lia|]. split; [|done]. intros _. by destruct (heldPackets b). }
      destruct (timerArmed b) eqn:Ht; simpl.
      * split; [done|]. split; [done|].
        rewrite concat_app. simpl. by rewrite !app_nil_r.
      * split; [done|]. split; [done|].
        rewrite concat_app. simpl. by rewrite !app_nil_r.
  - destruct (timerArmed b) eqn:Ht; simpl.
    + pose proof (flushBatch_conserves b s Hw) as Hf.
      destruct (flushBatch b s) as [[b' s'] eff]. simpl in *.
      destruct Hf as (Hw'&Hheld&Harm'&Hbytes).
      split; [|split; [done|]].
      * split; [rewrite Hheld; unfold BATCH_SIZE; simpl; lia|].
        rewrite Hheld. split; [|done]. intros Ht'.
        rewrite Harm' in Ht'; [done|]. by apply Harm.
      * rewrite Hheld, Hbytes. by rewrite !app_nil_r.
    + split; [split; [done|by rewrite Ht]|]. split; [done|]. by rewrite app_nil_r.
Qed.

Lemma batchRun_conserves evs b s :
  batcherOk b -> stdinWritable s ->
  batcherOk (fst (batchRun evs b s)) /\ stdinWritable (snd (batchRun evs b s)) /\
  stdinBytes (snd (batchRun evs b s)) ++ concat (heldPackets (fst (batchRun evs b s)))
  = stdinBytes s ++ concat (heldPackets b) ++ concat (pushedPackets evs).
Proof.
  revert b s. unfold batchRun.
  induction evs as [|ev evs IH]; intros b s Hok Hw.
  - simpl. by rewrite app_nil_r.
  - cbn [foldl fst snd].
    replace (pushedPackets (ev :: evs)) with (pushedPackets [ev] ++ pushedPackets evs)
      by (by destruct ev).
    destruct (batchStep_conserves ev b s Hok Hw) as (Hok1&Hw1&Hb1).
    destruct (batchStep ev b s) as [b1 s1] eqn:Hstep. cbn [fst snd] in *.
    destruct (IH b1 s1 Hok1 Hw1) as (Hok2&Hw2&Hb2).
    split; [done|]. split; [done|].
    rewrite Hb2, app_assoc, Hb1.
    rewrite concat_app, <- !app_assoc. done.
Qed.

(** A batched forwarder, from its creation on and while stdin stays
    writable, neither loses nor reorders a byte: what has been written to
    stdin followed by what it still holds is what it has been handed.  It
    never holds 10 packets after a call returns, and its timer is armed
    exactly while it holds something. *)
Theorem batching_conserves_bytes evs s :
  stdinWritable s ->
  stdinBytes (snd (batchRun evs createBatchedRtpForwarder s))
    ++ concat (heldPackets (fst (batchRun evs createBatchedRtpForwarder s)))
  = stdinBytes s ++ concat (pushedPackets evs) /\
  (length (heldPackets (fst (batchRun evs createBatchedRtpForwarder s))) < 10)%nat /\
  (timerArmed (fst (batchRun evs createBatchedRtpForwarder s)) = true <->
   heldPackets (fst (batchRun evs createBatchedRtpForwarder s)) <> []).
Proof.
  intros Hw.
  destruct (batchRun_conserves evs createBatchedRtpForwarder s) as ([Hlen Harm]&_&Hb);
    [split; simpl; [unfold BATCH_SIZE; lia|done]|done|].
  split; [exact Hb|]. split; [exact Hlen|exact Harm].
Qed.

Lemma batching_conserves_bytes_witness :
  exists s, sessions afterS1 !! "s1" = Some s /\
    stdinBytes (snd (batchRun [BatchPush samplePacket; BatchTimer; BatchPush [x01]]
                       createBatchedRtpForwarder s))
      ++ concat (heldPackets
                   (fst (batchRun [BatchPush samplePacket; BatchTimer; BatchPush [x01]]
                           createBatchedRtpForwarder s)))
    = [x80; x60; x00; x01; x01].
Proof.
  eexists. split; [vm_compute; reflexivity|].
  match goal with
  | |- context [batchRun ?evs createBatchedRtpForwarder ?s] =>
      destruct (batching_conserves_bytes evs s) as (Hb&_&_);
      [eexists; split; [vm_compute; reflexivity|reflexivity]|]
  end.
  rewrite Hb. vm_compute. reflexivity.
Defined.

(** ** A dead process is never replaced *)

Lemma onProcessExit_no_timer code signal s : snd (onProcessExit code signal s) = None.
Proof. unfold onProcessExit. simpl. by rewrite andb_false_r. Qed.

Lemma setupRtpReceiversWithForwarding_process s :
  process (setupRtpReceiversWithForwarding s) = process s.
Proof.
  unfold setupRtpReceiversWithForwarding, setupRtpReceiver. by repeat case_match.
Qed.

Lemma connectProducer_process ok k s s' :
  connectProducer ok k s = inr s' -> process s' = process s.
Proof. unfold connectProducer. intros H. by repeat case_match; simplify_eq. Qed.

Lemma connectProducersToRtp_process ok s :
  process (snd (connectProducersToRtp ok s)) = process s.
Proof.
  unfold connectProducersToRtp.
  destruct (connectProducer ok Video s) as [e|s1] eqn:H1; [done|].
  apply connectProducer_process in H1.
  destruct (connectProducer ok Audio s1) as [e|s2] eqn:H2; [done|].
  apply connectProducer_process in H2. simpl. congruence.
Qed.

Lemma attemptSocketRecovery_process bound k s :
  process (fst (attemptSocketRecovery bound k s)) = process s.
Proof. unfold attemptSocketRecovery. by repeat case_match. Qed.

Lemma deliverDatagram_process tnow k d s p :
  process s = Some p ->
  exists p', process (fst (deliverDatagram tnow k d s)) = Some p' /\
    running p' = running p /\ killed p' = killed p /\ pid p' = pid p.
Proof.
  intros Hp. unfold deliverDatagram, onRecoveredMessage, onRtpMessage, forwardToStdin.
  repeat case_match; simplify_eq; simpl in *; simplify_eq; eauto.
Qed.

Lemma launchSession_process env cfg path s p :
  process s = None ->
  process (snd (launchSession env cfg path s)) = Some p ->
  running p = true /\ killed p = false.
Proof.
  intros Hnone. unfold launchSession, startFFmpegProcess.
  destruct (spawned env) as [n|]; [|simpl; congruence].
  match goal with
  | |- context [connectProducersToRtp ?ok ?s0] =>
      pose proof (connectProducersToRtp_process ok s0) as Hc;
      destruct (connectProducersToRtp ok s0) as [[e|] s2]
  end; simpl in *; rewrite Hc, setupRtpReceiversWithForwarding_process; simpl;
    by intros [= <-].
Qed.

(** What [recoverTracked] does to the process: it spawns a new one only
    when there is none or [killed] is set. *)
Lemma recoverTracked_process cfg env s p :
  process s = Some p -> killed p = false ->
  process (snd (recoverTracked cfg env s)) = Some p.
Proof.
  intros Hp Hk. unfold recoverTracked. rewrite Hp, Hk.
  destruct (recoverSocket env Video s) as [e|s2] eqn:H2; [done|].
  assert (process s2 = Some p) as Hp2.
  { revert H2. unfold recoverSocket. repeat case_match; intros; simplify_eq;
      rewrite ?attemptSocketRecovery_process; done. }
  destruct (recoverSocket env Audio s2) as [e|s3] eqn:H3; [done|].
  assert (process s3 = Some p) as Hp3.
  { revert H3. unfold recoverSocket. repeat case_match; intros; simplify_eq;
      rewrite ?attemptSocketRecovery_process; done. }
  destruct (reconnect env Video s3) as [e|s4] eqn:H4; [done|].
  assert (process s4 = Some p) as Hp4.
  { revert H4. unfold reconnect. repeat case_match; intros; simplify_eq; done. }
  destruct (reconnect env Audio s4) as [e|s5] eqn:H5; [done|].
  revert H5. unfold reconnect. repeat case_match; intros; simplify_eq; done.
Qed.

Lemma recoverSocket_process env k s s' :
  recoverSocket env k s = inr s' -> process s' = process s.
Proof.
  unfold recoverSocket. repeat case_match; intros; simplify_eq;
    rewrite ?attemptSocketRecovery_process; done.
Qed.

Lemma reconnect_process env k s s' :
  reconnect env k s = inr s' -> process s' = process s.
Proof. unfold reconnect. repeat case_match; intros; simplify_eq; done. Qed.

Lemma recoverTracked_unkilled cfg env s p :
  (forall p0, process s = Some p0 -> killed p0 = false) ->
  process (snd (recoverTracked cfg env s)) = Some p -> killed p = false.
Proof.
  intros Hs. unfold recoverTracked.
  match goal with
  | |- context [match ?r with inl _ => (false, s) | inr _ => _ end] =>
      assert (forall s1, r = inr s1 ->
                forall p1, process s1 = Some p1 -> killed p1 = false) as Hre;
      [|destruct r as [e|s1]; [simpl; apply Hs|]]
  end.
  { unfold startFFmpegProcess. intros s1 H p1.
    repeat case_match; simplify_eq; simpl; intros Hp1;
      first [by simplify_eq | by apply Hs | by eauto]. }
  specialize (Hre s1 eq_refl).
  destruct (recoverSocket env Video s1) as [e|s2] eqn:H2; [simpl; eauto|].
  apply recoverSocket_process in H2.
  destruct (recoverSocket env Audio s2) as [e|s3] eqn:H3;
    [simpl; rewrite H2; eauto|].
  apply recoverSocket_process in H3.
  destruct (reconnect env Video s3) as [e|s4] eqn:H4;
    [simpl; rewrite H3, H2; eauto|].
  apply reconnect_process in H4.
  destruct (reconnect env Audio s4) as [e|s5] eqn:H5;
    [simpl; rewrite H4, H3, H2; eauto|].
  apply reconnect_process in H5. simpl. rewrite H5, H4, H3, H2. eauto.
Qed.

Lemma noneKilled_update st sid s' :
  noneKilled st -> (forall p, process s' = Some p -> killed p = false) ->
  noneKilled (updateSession sid s' st).
Proof.
  intros Hnk Hs' sid0 s0 p. unfold updateSession. simpl.
  rewrite lookup_insert. case_decide; intros; simplify_eq; eauto.
Qed.

Lemma noneKilled_stop grace st sid :
  noneKilled st -> noneKilled (snd (stopTranscoding grace st sid)).
Proof.
  intros Hnk sid0 s0 p. rewrite stopTranscoding_lookup.
  case_decide; [done|]. apply Hnk.
Qed.

Lemma noneKilled_start_try env st sid prods :
  noneKilled st -> noneKilled (snd (startTranscoding_try env st sid prods)).
Proof.
  intros Hnk.
  destruct (startTranscoding_try_cases env st sid prods)
    as [[e ->]|(Hnone&_&r&s'&Hlaunch&->)]; [done|].
  pose proof (launchSession_frame env (config st) (playlistPathOf (config st) sid)
                (newSession env (config st) sid (findProducer Video prods)
                   (findProducer Audio prods)
                   (fst (allocateFor (findProducer Video prods) st))
                   (fst (allocateFor (findProducer Audio prods)
                           (snd (allocateFor (findProducer Video prods) st))))))
    as (Hid&_).
  pose proof (fun p => launchSession_process env (config st)
                (playlistPathOf (config st) sid)
                (newSession env (config st) sid (findProducer Video prods)
                   (findProducer Audio prods)
                   (fst (allocateFor (findProducer Video prods) st))
                   (fst (allocateFor (findProducer Audio prods)
                           (snd (allocateFor (findProducer Video prods) st)))))
                p eq_refl) as Hproc.
  rewrite Hlaunch in Hid, Hproc. simpl in Hid, Hproc.
  destruct (allocateFor_spec (findProducer Video prods) st) as (_&Hs1&_).
  destruct (allocateFor_spec (findProducer Audio prods)
              (snd (allocateFor (findProducer Video prods) st))) as (_&Hs2&_).
  intros sid0 s0 p. unfold putSession. simpl. rewrite Hid, Hs2, Hs1.
  rewrite lookup_insert. case_decide; intros; simplify_eq.
  - by destruct (Hproc p).
  - eauto.
Qed.

Lemma noneKilled_step st st' : step st st' -> noneKilled st -> noneKilled st'.
Proof.
  intros Hstep Hnk. destruct Hstep.
  - rewrite startTranscoding_state.
    pose proof (noneKilled_start_try env st sessionId prods Hnk) as Htry.
    destruct (fst (startTranscoding_try env st sessionId prods)); [|done].
    by apply noneKilled_stop.
  - by apply noneKilled_stop.
  - apply cleanup_preserves; [|done]. intros. by apply noneKilled_stop.
  - unfold recoverSession. destruct (sessions st !! sessionId) as [s|] eqn:Hs; [|done].
    destruct (recoverTracked (config st) env s) as [ok s1] eqn:Hrec. simpl.
    apply noneKilled_update; [done|]. intros p Hp.
    pose proof (recoverTracked_unkilled (config st) env s) as Hun.
    rewrite Hrec in Hun. simpl in Hun. apply Hun; [|done]. intros p0. apply (Hnk _ _ _ Hs).
  - apply noneKilled_update; [done|]. intros p Hp.
    destruct (process session) as [p0|] eqn:Hp0.
    + destruct (deliverDatagram_process tnow k rtpPacket session p0 Hp0)
        as (p'&Hp'&_&Hk&_). simplify_eq. rewrite Hk. eauto.
    + exfalso. revert Hp.
      unfold deliverDatagram, onRecoveredMessage, onRtpMessage, forwardToStdin.
      simpl. rewrite Hp0. repeat case_match; simpl; rewrite ?Hp0; congruence.
  - apply noneKilled_update; [done|]. intros p.
    unfold processExit, onProcessExit. simpl. rewrite andb_false_r. simpl.
    destruct (process session) as [p0|] eqn:Hp0; simpl; [|done].
    intros [= <-]. simpl. eauto.
  - by rewrite onProcessExit_no_timer in H0.
  - apply noneKilled_update; [done|]. intros p.
    unfold onStderrData. repeat case_match; simpl; eauto.
  - apply noneKilled_update; [done|]. intros p.
    rewrite attemptSocketRecovery_process. eauto.
Qed.

Lemma noneKilled_reachable cfg st : reachable cfg st -> noneKilled st.
Proof.
  induction 1 as [|st st' _ IH Hstep]; [done|]. by eapply noneKilled_step.
Qed.

(** Once the ffmpeg process of a tracked session has exited, no transition
    of the transcoder gives that session a running process again: the exit
    handler sets no restart timer, and [recoverSession] spawns a process only
    when the old one carries the [killed] flag, which an exit on its own
    does not set.  The session keeps its dead process until it is stopped. *)
Theorem dead_process_is_never_replaced cfg st st' sid s s' p :
  reachable cfg st -> step st st' ->
  sessions st !! sid = Some s -> process s = Some p -> running p = false ->
  sessions st' !! sid = Some s' ->
  exists p', process s' = Some p' /\ running p' = false /\ pid p' = pid p.
Proof.
  intros Hreach Hstep Hs Hp Hdead Hs'.
  pose proof (noneKilled_reachable cfg st Hreach _ _ _ Hs Hp) as Hk.
  assert (forall t, sessions (updateSession sid t st) !! sid = Some s' -> t = s')
    as Hsame.
  { intros t. unfold updateSession. simpl. rewrite lookup_insert_eq. congruence. }
  assert (forall sid0 t, sid0 <> sid ->
            sessions (updateSession sid0 t st) !! sid = Some s' -> s' = s) as Hother.
  { intros sid0 t Hne. unfold updateSession. simpl.
    rewrite lookup_insert_ne by done. congruence. }
  assert (forall sid0 t0 t, sessions st !! sid0 = Some t0 ->
            sessions (updateSession sid0 t st) !! sid = Some s' ->
            (t0 = s -> exists p', process t = Some p' /\ running p' = false /\
                                  pid p' = pid p) ->
            exists p', process s' = Some p' /\ running p' = false /\ pid p' = pid p)
    as Hupd.
  { intros sid0 t0 t Ht0 Hlook Hgoal. destruct (decide (sid0 = sid)) as [->|Hne].
    - apply Hsame in Hlook as <-. apply Hgoal. congruence.
    - apply Hother in Hlook as ->; [eauto|done]. }
  destruct Hstep.
  - destruct (decide (sid = sessionId)) as [->|Hne].
    + apply startTranscoding_tracked_after in Hs' as (Hnone&_). congruence.
    + rewrite startTranscoding_other in Hs' by done. simplify_eq. eauto.
  - rewrite stopTranscoding_lookup in Hs'. case_decide; simplify_eq. eauto.
  - unfold cleanup in Hs'. rewrite cleanup_lookup in Hs'.
    case_decide; simplify_eq. eauto.
  - unfold recoverSession in Hs'.
    destruct (sessions st !! sessionId) as [t0|] eqn:Ht0;
      [|simpl in Hs'; simplify_eq; eauto].
    destruct (recoverTracked (config st) env t0) as [ok t] eqn:Hrec. simpl in Hs'.
    apply (Hupd sessionId t0 t Ht0 Hs'). intros ->.
    pose proof (recoverTracked_process (config st) env s p Hp Hk) as Hsame_p.
    rewrite Hrec in Hsame_p. eauto.
  - apply (Hupd _ _ _ H Hs'). intros ->.
    destruct (deliverDatagram_process tnow k rtpPacket s p Hp) as (p'&?&Hr&_&?).
    exists p'. rewrite Hr. done.
  - apply (Hupd _ _ _ H Hs'). intros ->.
    unfold processExit, onProcessExit. simpl. rewrite andb_false_r, Hp. simpl.
    eauto.
  - by rewrite onProcessExit_no_timer in H0.
  - apply (Hupd _ _ _ H Hs'). intros ->.
    exists p. split; [|done]. unfold onStderrData. by repeat case_match.
  - apply (Hupd _ _ _ H Hs'). intros ->.
    rewrite attemptSocketRecovery_process. eauto.
Qed.

Lemma dead_process_is_never_replaced_witness :
  exists s s', sessions afterS1Exit !! "s1" = Some s /\
    sessions (snd (recoverSession (mkRecoverEnv (Some 9%nat) (fun _ => true)
                                     (fun _ => true)) afterS1Exit "s1")) !! "s1"
    = Some s' /\
    exists p', process s' = Some p' /\ running p' = false /\ pid p' = 7%nat.
Proof.
  do 2 eexists. split; [vm_compute; reflexivity|].
  split; [vm_compute; reflexivity|].
  eapply (dead_process_is_never_replaced DEFAULT_HLS_CONFIG afterS1Exit _ "s1" _ _
            (mkChildProcess 7
               (ffmpegArgs DEFAULT_HLS_CONFIG
                  (newSession (calmEnv 1000 7) DEFAULT_HLS_CONFIG "s1"
                     (Some videoProducer1) (Some audioProducer1) 20000 20002)
                  (playlistPathOf DEFAULT_HLS_CONFIG "s1"))
               false false true false [])).
  - eapply reachable_step.
    + eapply reachable_step; [apply reachable_init|apply step_start].
    + eapply (step_exit (Some 1) None _ "s1"). vm_compute. reflexivity.
  - apply (step_recover (mkRecoverEnv (Some 9%nat) (fun _ => true) (fun _ => true))
             afterS1Exit "s1").
  - vm_compute. reflexivity.
  - vm_compute. reflexivity.
  - reflexivity.
  - vm_compute. reflexivity.
Defined.

(** ** Adaptive bitrate: what a run creates *)













(** ** Master playlist text *)




(** ** The ffmpeg command line *)

(** The command line depends on the session only through which producers
    it has, so a respawn gets the arguments of the first spawn; it always
    ends with the playlist path, and when the session has a producer it
    opens with the fixed input options followed by [-f rtp -i pipe:0]. *)
Theorem ffmpegArgs_shape cfg s s' playlistPath :
  (producers s' = producers s ->
   ffmpegArgs cfg s' playlistPath = ffmpegArgs cfg s playlistPath) /\
  last (ffmpegArgs cfg s playlistPath) = Some (path_to_string playlistPath) /\
  ((exists k, present k s) ->
   take 12 (ffmpegArgs cfg s playlistPath)
   = [ "-protocol_whitelist"; "pipe,udp,rtp,file"; "-thread_queue_size"; "1024";
       "-analyzeduration"; "1000000"; "-probesize"; "1000000";
       "-f"; "rtp"; "-i"; "pipe:0" ]).
Proof.
  split; [|split].
  - intros Hp. unfold ffmpegArgs. by rewrite Hp.
  - unfold ffmpegArgs. rewrite !app_assoc. apply last_snoc.
  - intros [k Hk]. unfold ffmpegArgs, present in *.
    destruct k; simpl in Hk; destruct Hk as [x Hx]; rewrite Hx;
      destruct (video (producers s)), (audio (producers s)); simplify_eq;
      reflexivity.
Qed.

Lemma ffmpegArgs_shape_witness :
  take 12 (ffmpegArgs DEFAULT_HLS_CONFIG
             (newSession (calmEnv 0 1) DEFAULT_HLS_CONFIG "s1"
                None (Some audioProducer1) 0 20000)
             (playlistPathOf DEFAULT_HLS_CONFIG "s1"))
  = [ "-protocol_whitelist"; "pipe,udp,rtp,file"; "-thread_queue_size"; "1024";
      "-analyzeduration"; "1000000"; "-probesize"; "1000000";
      "-f"; "rtp"; "-i"; "pipe:0" ].
Proof.
  apply (ffmpegArgs_shape DEFAULT_HLS_CONFIG
           (newSession (calmEnv 0 1) DEFAULT_HLS_CONFIG "s1"
              None (Some audioProducer1) 0 20000)
           (newSession (calmEnv 0 1) DEFAULT_HLS_CONFIG "s1"
              None (Some audioProducer1) 0 20000)
           (playlistPathOf DEFAULT_HLS_CONFIG "s1")).
  exists Audio. eexists. reflexivity.
Defined.

(** ** Session recovery *)

Lemma reconnect_consumer env k s s' :
  reconnect env k s = inr s' ->
  (present k s' -> is_Some (getKind k (consumers s'))) /\
  (forall k', k' <> k -> getKind k' (consumers s') = getKind k' (consumers s)).
Proof.
  unfold reconnect, present.
  destruct (getKind k (producers s)) as [producer|] eqn:Hprod.
  - destruct (getKind k (consumers s)) as [c|] eqn:Hcons.
    + intros [= <-]. rewrite Hcons. split; [eauto|done].
    + destruct (createPlainTransportForProducer _ _ _ _) as [e|[t c]]; [done|].
      intros [= <-]. simpl. split.
      * intros _. destruct k; simpl; eauto.
      * intros k' Hne. destruct k, k'; done.
  - intros [= <-]. rewrite Hprod. split; [by intros []|done].
Qed.

(** [recoverSession] never touches the port pool, the ports, the producers
    or the counters of the session; on an id that is not tracked it returns
    false and changes nothing; and when it returns true the session is
    marked active and every kind it has a producer for has a consumer. *)
Theorem recoverSession_effect env st sessionId :
  usedPorts (snd (recoverSession env st sessionId)) = usedPorts st /\
  (sessions st !! sessionId = None -> recoverSession env st sessionId = (false, st)) /\
  (forall s, sessions st !! sessionId = Some s ->
     exists s', sessions (snd (recoverSession env st sessionId)) !! sessionId = Some s' /\
       sameFrame s s' /\ stats s' = stats s /\
       (fst (recoverSession env st sessionId) = true ->
        isActive s' = true /\
        forall k, present k s' -> is_Some (getKind k (consumers s')))).
Proof.
  unfold recoverSession.
  destruct (sessions st !! sessionId) as [s|] eqn:Hs; [|by repeat split].
  pose proof (recoverTracked_frame (config st) env s) as Hf.
  pose proof (recoverTracked_stats (config st) env s) as Hstats.
  assert (fst (recoverTracked (config st) env s) = true ->
          isActive (snd (recoverTracked (config st) env s)) = true /\
          forall k, present k (snd (recoverTracked (config st) env s)) ->
            is_Some (getKind k (consumers (snd (recoverTracked (config st) env s)))))
    as Hok.
  { unfold recoverTracked.
    match goal with
    | |- context [match ?r with inl _ => (false, s) | inr _ => _ end] =>
        destruct r as [e|s1]; [done|]
    end.
    destruct (recoverSocket env Video s1) as [e|s2]; [done|].
    destruct (recoverSocket env Audio s2) as [e|s3]; [done|].
    destruct (reconnect env Video s3) as [e|s4] eqn:H4; [done|].
    destruct (reconnect env Audio s4) as [e|s5] eqn:H5; [done|].
    simpl. intros _. split; [done|].
    pose proof (reconnect_frame _ _ _ _ H5) as Hf5.
    apply reconnect_consumer in H4 as [Hv _].
    apply reconnect_consumer in H5 as [Ha Hkeep].
    pose proof (Hkeep Video ltac:(done)) as Hkept.
    destruct Hf5 as (_&_&Hprod&_). unfold present in *.
    intros [] Hp.
    - change (consumers (set_isActive true s5)) with (consumers s5).
      rewrite Hkept. apply Hv.
      change (producers (set_isActive true s5)) with (producers s5) in Hp.
      by rewrite Hprod in Hp.
    - by apply Ha. }
  destruct (recoverTracked (config st) env s) as [ok s1]. simpl in *.
  split; [done|]. split; [done|].
  intros s0 [= <-]. exists s1. rewrite lookup_insert_eq. done.
Qed.

Lemma recoverSession_effect_witness :
  recoverSession (mkRecoverEnv None (fun _ => true) (fun _ => true)) afterS1 "nobody"
  = (false, afterS1).
Proof.
  apply (recoverSession_effect
           (mkRecoverEnv None (fun _ => true) (fun _ => true)) afterS1 "nobody").
  vm_compute. reflexivity.
Defined.

Lemma stopProcess_never_sigkill_witness :
  Kill 7 SIGKILL ∉ snd (stopProcess false
                          (mkChildProcess 7 [] true false false false [])).
Proof.
  apply (stopProcess_never_sigkill false
           (mkChildProcess 7 [] true false false false []) 7).
Defined.
